(** * Lyrics slide generator: layout, sections and text cleaning

    A shallow embedding of the pure text and layout functions of
    [create_lyrics_pptx.py], [webapp/backend/main.py],
    [extract_lyrics.py] and [main.py], with the properties the
    specification states about them and further properties read off the
    code.

    A Python [str] is a sequence of Unicode code points and a Python [int]
    is unbounded, so strings are lists of [N] and integers are [Z].  A
    Python exception is the [None] of an [option]. *)

From Stdlib Require Import Ascii String.
From Stdlib Require Import ZArith NArith List Bool Lia.
Import ListNotations.

Set Implicit Arguments.

(** ** The Python builtins the scripts call *)

Module Py.

Definition char := N.
Definition str := list char.

Definition len {A : Type} (l : list A) : Z := Z.of_nat (length l).

(** [range(n)]: empty when [n <= 0]. *)
Definition range (n : Z) : list Z := map Z.of_nat (seq 0 (Z.to_nat n)).

(** [enumerate(l)]. *)
Definition enumerate {A : Type} (l : list A) : list (Z * A) :=
  combine (range (len l)) l.

(** A slice bound is brought into [0 .. len]: a negative bound counts
    from the end, and both ends are clamped. *)
Definition slice_bound (n i : Z) : Z :=
  if (i <? 0)%Z then Z.max 0 (i + n) else Z.min i n.

(** [l[start:stop]]. *)
Definition slice {A : Type} (l : list A) (start stop : Z) : list A :=
  let s := slice_bound (len l) start in
  let e := slice_bound (len l) stop in
  firstn (Z.to_nat (e - s)) (skipn (Z.to_nat s) l).

(** [l[start:]]. *)
Definition slice_from {A : Type} (l : list A) (start : Z) : list A :=
  skipn (Z.to_nat (slice_bound (len l) start)) l.

(** [l[i]]: a negative index counts from the end; [None] is
    [IndexError]. *)
Definition getitem {A : Type} (l : list A) (i : Z) : option A :=
  let j := if (i <? 0)%Z then (i + len l)%Z else i in
  if (j <? 0)%Z then None else nth_error l (Z.to_nat j).

Definition char_eqb (a b : char) : bool := N.eqb a b.

Fixpoint str_eqb (a b : str) : bool :=
  match a, b with
  | [], [] => true
  | x :: a', y :: b' => char_eqb x y && str_eqb a' b'
  | _, _ => false
  end.

(** [s.startswith(p)]. *)
Fixpoint startswith (p s : str) : bool :=
  match p, s with
  | [], _ => true
  | x :: p', y :: s' => char_eqb x y && startswith p' s'
  | _ :: _, [] => false
  end.

(** [c.isspace()]: the code points Python treats as whitespace. *)
Definition isspace (c : char) : bool :=
  (((0x09 <=? c) && (c <=? 0x0D)) || ((0x1C <=? c) && (c <=? 0x20))
   || (c =? 0x85) || (c =? 0xA0) || (c =? 0x1680)
   || ((0x2000 <=? c) && (c <=? 0x200A))
   || (c =? 0x2028) || (c =? 0x2029) || (c =? 0x202F)
   || (c =? 0x205F) || (c =? 0x3000))%N.

Fixpoint lstrip (s : str) : str :=
  match s with
  | [] => []
  | c :: s' => if isspace c then lstrip s' else s
  end.

Definition rstrip (s : str) : str := rev (lstrip (rev s)).

(** [s.strip()]. *)
Definition strip (s : str) : str := rstrip (lstrip s).

(** [s.replace(old, new)]: every occurrence of [old], leftmost first and
    without overlap, becomes [new].  [skip] counts the characters of an
    occurrence already replaced that are still to be passed over. *)
Fixpoint replace_from (old new : str) (skip : nat) (s : str) : str :=
  match s with
  | [] => []
  | c :: s' =>
      match skip with
      | S k => replace_from old new k s'
      | O =>
          if startswith old s
          then new ++ replace_from old new (length old - 1) s'
          else c :: replace_from old new 0 s'
      end
  end.

Definition replace (old new s : str) : str :=
  match old with
  | [] => new ++ flat_map (fun c => c :: new) s
  | _ :: _ => replace_from old new 0 s
  end.

(** [s.split(sep)] at a separator of one character. *)
Fixpoint split (sep : char) (s : str) : list str :=
  match s with
  | [] => [[]]
  | c :: s' =>
      if char_eqb c sep then [] :: split sep s'
      else
        match split sep s' with
        | [] => [[c]]
        | w :: ws => (c :: w) :: ws
        end
  end.

(** [re.sub('[...]', '', s)] at a character class: every character of
    the class is removed. *)
Definition re_sub_class (class : list char) (s : str) : str :=
  filter (fun c => negb (existsb (char_eqb c) class)) s.

(** [c in s] for a one-character [c]. *)
Definition contains (c : char) (s : str) : bool := existsb (char_eqb c) s.

(** A literal of ASCII characters, as the code points it holds. *)
Definition lit (s : string) : str := map N_of_ascii (list_ascii_of_string s).

(** [sub in s] for strings: [sub] starts at some position of [s]. *)
Fixpoint contains_str (sub s : str) : bool :=
  startswith sub s
  || match s with
     | [] => false
     | _ :: s' => contains_str sub s'
     end.

(** The scan of [s.split(sep)]: [cur] is the piece being read and [skip]
    counts the characters of a separator just met that are still to be
    passed over. *)
Fixpoint split_go (sep : str) (skip : nat) (cur : str) (s : str) : list str :=
  match s with
  | [] => [cur]
  | c :: s' =>
      match skip with
      | S k => split_go sep k cur s'
      | O =>
          if startswith sep s
          then cur :: split_go sep (length sep - 1) [] s'
          else split_go sep 0 (cur ++ [c]) s'
      end
  end.

(** [s.split(sep)] at a separator string; [None] is the [ValueError] of an
    empty separator. *)
Definition split_str (sep s : str) : option (list str) :=
  match sep with
  | [] => None
  | _ :: _ => Some (split_go sep 0 [] s)
  end.

(** [sep.join(parts)]. *)
Fixpoint join (sep : str) (parts : list str) : str :=
  match parts with
  | [] => []
  | part :: rest =>
      match rest with
      | [] => part
      | _ :: _ => part ++ sep ++ join sep rest
      end
  end.

End Py.

Import Py.

(** The characters the scripts name. *)
Definition NEWLINE : char := 0x0A%N.
Definition SPACE : char := 0x20%N.
Definition QUOTE : char := 0x22%N.
Definition HASH : char := 0x23%N.
Definition STAR : char := 0x2A%N.
Definition COMMA : char := 0x2C%N.
Definition PERIOD : char := 0x2E%N.
Definition SLASH : char := 0x2F%N.
Definition COLON : char := 0x3A%N.
Definition LESS : char := 0x3C%N.
Definition GREATER : char := 0x3E%N.
Definition QUESTION : char := 0x3F%N.
Definition BACKSLASH : char := 0x5C%N.
Definition UNDERSCORE : char := 0x5F%N.
Definition BAR : char := 0x7C%N.
Definition CARRIAGE_RETURN : char := 0x0D%N.

(** What reading gives back of the text of a file opened in text mode
    with the default [newline]: a carriage return with the newline after
    it, and a carriage return alone, are read as one newline.  (Writing
    in text mode puts the line separator of the platform for a newline,
    which is read back as a newline.) *)
Fixpoint read_text (data : str) : str :=
  match data with
  | [] => []
  | c :: rest =>
      if char_eqb c CARRIAGE_RETURN then
        NEWLINE
        :: match rest with
           | [] => []
           | next :: rest' =>
               if char_eqb next NEWLINE then read_text rest'
               else read_text rest
           end
      else c :: read_text rest
  end.

(** A layout is the dictionary [{'columns': _, 'font_size': _}]. *)
Record Layout : Type := mkLayout { columns : Z; font_size : Z }.

(** [RGBColor(r, g, b)]. *)
Record RGBColor : Type := mkRGB { red : Z; green : Z; blue : Z }.

(** ** create_lyrics_pptx.py *)

Module Cli.

Open Scope Z_scope.

Definition get_optimal_layout {A : Type} (lines : list A) : Layout :=
  let line_count := len lines in
  if line_count <=? 15 then mkLayout 1 22
  else if line_count <=? 28 then mkLayout 2 18
  else if line_count <=? 42 then mkLayout 3 16
  else if line_count <=? 56 then mkLayout 4 14
  else if line_count <=? 72 then mkLayout 4 12
  else mkLayout 5 10.

(** [None] is the [ZeroDivisionError] of [// num_columns]. *)
Definition split_into_columns {A : Type} (lines : list A) (num_columns : Z)
  : option (list (list A)) :=
  if num_columns =? 0 then None
  else
    let lines_per_col := (len lines + num_columns - 1) / num_columns in
    Some (fold_left
            (fun columns i =>
               let start := i * lines_per_col in
               let end_ := start + lines_per_col in
               columns ++ [slice lines start end_])
            (range num_columns) []).

(** The loop returns at the first character of the Hebrew block. *)
Fixpoint is_hebrew (text : str) : bool :=
  match text with
  | [] => false
  | char :: rest =>
      if ((0x0590 <=? char) && (char <=? 0x05FF))%N then true
      else is_hebrew rest
  end.

Definition is_hebrew_song (title : str) (lyrics_lines : list str) : bool :=
  if is_hebrew title then true
  else
    let hebrew_lines :=
      fold_left Z.add
        (map (fun _ => 1) (filter is_hebrew (slice lyrics_lines 0 5))) 0 in
    2 <=? hebrew_lines.

Definition clean_punctuation (text : str) : str :=
  replace [PERIOD] [] (replace [COMMA] [] text).

Definition SECTION_COLORS : list RGBColor :=
  [ mkRGB 240 240 255; mkRGB 255 220 180; mkRGB 180 255 200;
    mkRGB 255 200 220; mkRGB 200 220 255; mkRGB 255 255 180 ].

(** [not line.strip()]. *)
Definition is_blank (line : str) : bool :=
  match strip line with
  | [] => true
  | _ :: _ => false
  end.

(** The state of the loop of [split_into_sections]: the sections closed
    so far and the section being filled. *)
Definition sections_step (st : list (list str) * list str) (line : str)
  : list (list str) * list str :=
  let '(sections, current_section) := st in
  if is_blank line then
    match current_section with
    | [] => (sections, current_section)
    | _ :: _ => (sections ++ [current_section], [])
    end
  else (sections, current_section ++ [line]).

Definition sections_finish (st : list (list str) * list str)
  : list (list str) :=
  let '(sections, current_section) := st in
  match current_section with
  | [] => sections
  | _ :: _ => sections ++ [current_section]
  end.

Definition split_into_sections (lines : list str) : list (list str) :=
  sections_finish (fold_left sections_step lines ([], [])).

(** One turn of the loop of [assign_section_colors] over
    [enumerate(sections)]; [n] is [len(sections)].  [None] is the
    [IndexError] of a subscript of [SECTION_COLORS]. *)
Definition colors_step (n : Z)
    (acc : option (list (str * RGBColor))) (item : Z * list str)
  : option (list (str * RGBColor)) :=
  let '(i, section) := item in
  match acc with
  | None => None
  | Some result =>
      match getitem SECTION_COLORS (i mod len SECTION_COLORS) with
      | None => None
      | Some color =>
          let result :=
            fold_left (fun r line => r ++ [(line, color)]) section result in
          if i <? n - 1 then
            match getitem SECTION_COLORS 0 with
            | None => None
            | Some first => Some (result ++ [([], first)])
            end
          else Some result
      end
  end.

Definition assign_section_colors (sections : list (list str))
  : option (list (str * RGBColor)) :=
  fold_left (colors_step (len sections)) (enumerate sections) (Some []).

(** [while l and not l[0].strip(): l.pop(0)]. *)
Fixpoint pop_leading_blank (l : list str) : list str :=
  match l with
  | [] => []
  | line :: rest => if is_blank line then pop_leading_blank rest else l
  end.

(** [while l and not l[-1].strip(): l.pop()]. *)
Definition pop_trailing_blank (l : list str) : list str :=
  rev (pop_leading_blank (rev l)).

(** The loop of [parse_lyrics_file] over the lines of the file: the
    state is [(title, lyrics_lines, found_title)]. *)
Definition parse_step (st : str * list str * bool) (line : str)
  : str * list str * bool :=
  let '(title, lyrics_lines, found_title) := st in
  if startswith [HASH; SPACE] line
  then (strip (slice_from line 2), lyrics_lines, true)
  else (title, lyrics_lines ++ [clean_punctuation line], found_title).

(** [stem] is [filepath.stem] and [content] what [f.read()] returns. *)
Definition parse_lyrics_file (stem content : str) : str * list str :=
  let lines := split NEWLINE (strip content) in
  let title := replace [UNDERSCORE] [SPACE] stem in
  let '(title, lyrics_lines, _) :=
    fold_left parse_step lines (title, [], false) in
  let lyrics_lines := pop_leading_blank lyrics_lines in
  let lyrics_lines := pop_trailing_blank lyrics_lines in
  (title, lyrics_lines).

(** The table [theme_map] of [get_search_terms], in the order it is
    written: the Hebrew word and the English search terms. *)
Definition theme_map : list (str * str) :=
  [ ([0x05D0; 0x05D4; 0x05D1; 0x05D4]%N, lit "love romance");
    ([0x05DC; 0x05D1]%N, lit "heart love");
    ([0x05E9; 0x05DE; 0x05E9]%N, lit "sun sunshine");
    ([0x05D9; 0x05E8; 0x05D7]%N, lit "moon night");
    ([0x05D9; 0x05DD]%N, lit "sea ocean");
    ([0x05D2; 0x05E9; 0x05DD]%N, lit "rain");
    ([0x05DC; 0x05D9; 0x05DC; 0x05D4]%N, lit "night stars");
    ([0x05D1; 0x05D9; 0x05EA]%N, lit "home house");
    ([0x05D3; 0x05E8; 0x05DA]%N, lit "road journey path");
    ([0x05D7; 0x05DC; 0x05D5; 0x05DD]%N, lit "dream dreaming");
    ([0x05E9; 0x05D9; 0x05E8]%N, lit "music singing");
    ([0x05E8; 0x05D9; 0x05E7; 0x05D5; 0x05D3]%N, lit "dance dancing");
    ([0x05D0; 0x05D1; 0x05D9; 0x05D1]%N, lit "spring flowers");
    ([0x05E1; 0x05EA; 0x05D9; 0x05D5]%N, lit "autumn fall leaves");
    ([0x05D7; 0x05D5; 0x05E8; 0x05E3]%N, lit "winter snow");
    ([0x05E7; 0x05D9; 0x05E5]%N, lit "summer beach") ].

(** [if sep in title: title = title.split(sep)[0]]. *)
Definition cut_at (sep title : str) : option str :=
  if contains_str sep title then
    match split_str sep title with
    | None => None
    | Some parts => getitem parts 0
    end
  else Some title.

(** The loop over [theme_map.items()]: it returns at the first Hebrew
    word found in the title. *)
Fixpoint first_theme (items : list (str * str)) (title : str) : option str :=
  match items with
  | [] => None
  | (hebrew, english) :: rest =>
      if contains_str hebrew title then Some english
      else first_theme rest title
  end.

(** [None] is an exception of [split] or of the subscript. *)
Definition get_search_terms (title : str) : option str :=
  match cut_at (lit " - ") title with
  | None => None
  | Some title =>
      match cut_at (lit " / ") title with
      | None => None
      | Some title =>
          match first_theme theme_map title with
          | Some english => Some english
          | None =>
              if negb (is_hebrew title) then Some title
              else Some (lit "music abstract")
          end
      end
  end.

(** What [add_lyrics_slide] computes for its text columns, apart from
    the drawing: the right-to-left flag, the font size and the columns of
    coloured lines.  [None] is an exception of one of these calls. *)
Definition add_lyrics_slide_layout (title : str) (lyrics_lines : list str)
  : option (bool * Z * list (list (str * RGBColor))) :=
  let is_rtl := is_hebrew_song title lyrics_lines in
  let layout := get_optimal_layout lyrics_lines in
  let num_columns := columns layout in
  let font_size := font_size layout in
  let sections := split_into_sections lyrics_lines in
  match assign_section_colors sections with
  | None => None
  | Some colored_lines =>
      match split_into_columns colored_lines num_columns with
      | None => None
      | Some cols => Some (is_rtl, font_size, cols)
      end
  end.

End Cli.

(** ** webapp/backend/main.py *)

Module Webapp.

Open Scope Z_scope.

Definition SECTION_COLORS : list RGBColor :=
  [ mkRGB 240 240 255; mkRGB 255 220 180; mkRGB 180 255 200;
    mkRGB 255 200 220; mkRGB 200 220 255; mkRGB 255 255 180 ].

Fixpoint is_hebrew (text : str) : bool :=
  match text with
  | [] => false
  | char :: rest =>
      if ((0x0590 <=? char) && (char <=? 0x05FF))%N then true
      else is_hebrew rest
  end.

Definition clean_punctuation (text : str) : str :=
  replace [PERIOD] [] (replace [COMMA] [] text).

Definition get_optimal_layout {A : Type} (lines : list A) : Layout :=
  let line_count := len lines in
  if line_count <=? 15 then mkLayout 1 22
  else if line_count <=? 28 then mkLayout 2 18
  else if line_count <=? 42 then mkLayout 3 16
  else if line_count <=? 56 then mkLayout 4 14
  else mkLayout 5 10.

(** The first lines of [generate_pptx]: the right-to-left flag of the
    slide. *)
Definition generate_pptx_is_rtl (title : str) (lyrics_lines : list str)
  : bool :=
  is_hebrew title.

(** The loop of [generate_pptx] that colours the lines of the sections,
    one turn; [n] is [len(sections)]. *)
Definition colored_step (n : Z)
    (acc : option (list (str * RGBColor))) (item : Z * list str)
  : option (list (str * RGBColor)) :=
  let '(i, section) := item in
  match acc with
  | None => None
  | Some colored_lines =>
      match getitem SECTION_COLORS (i mod len SECTION_COLORS) with
      | None => None
      | Some color =>
          let colored_lines :=
            fold_left (fun r line => r ++ [(line, color)])
              section colored_lines in
          if i <? n - 1 then
            match getitem SECTION_COLORS 0 with
            | None => None
            | Some first => Some (colored_lines ++ [([], first)])
            end
          else Some colored_lines
      end
  end.

Definition generate_pptx_colored_lines (sections : list (list str))
  : option (list (str * RGBColor)) :=
  fold_left (colored_step (len sections)) (enumerate sections) (Some []).

(** The column split of [generate_pptx], on the coloured lines.  [None]
    is the [ZeroDivisionError] of [// num_columns]. *)
Definition generate_pptx_columns {A : Type} (colored_lines : list A)
  : option (list (list A)) :=
  let layout := get_optimal_layout colored_lines in
  let num_columns := columns layout in
  if num_columns =? 0 then None
  else
    let lines_per_col := (len colored_lines + num_columns - 1) / num_columns in
    Some (fold_left
            (fun cols i =>
               let start := i * lines_per_col in
               let end_ := start + lines_per_col in
               cols ++ [slice colored_lines start end_])
            (range num_columns) []).

(** The loop of [split_into_sections] of the web backend: a line is
    cleaned when it is put into the section. *)
Definition sections_step (st : list (list str) * list str) (line : str)
  : list (list str) * list str :=
  let '(sections, current_section) := st in
  if Cli.is_blank line then
    match current_section with
    | [] => (sections, current_section)
    | _ :: _ => (sections ++ [current_section], [])
    end
  else (sections, current_section ++ [clean_punctuation line]).

Definition split_into_sections (lines : list str) : list (list str) :=
  Cli.sections_finish (fold_left sections_step lines ([], [])).

(** What [generate_pptx] computes for its text columns, apart from the
    drawing: the right-to-left flag, the font size and the columns of
    coloured lines.  [None] is an exception of one of these steps. *)
Definition generate_pptx_layout (title : str) (lyrics_lines : list str)
  : option (bool * Z * list (list (str * RGBColor))) :=
  let is_rtl := is_hebrew title in
  let sections := split_into_sections lyrics_lines in
  match generate_pptx_colored_lines sections with
  | None => None
  | Some colored_lines =>
      let layout := get_optimal_layout colored_lines in
      let font_size := font_size layout in
      match generate_pptx_columns colored_lines with
      | None => None
      | Some cols => Some (is_rtl, font_size, cols)
      end
  end.

End Webapp.

(** ** extract_lyrics.py *)

Module ExtractLyrics.

Open Scope Z_scope.

(** The character class of the first substitution: less-than,
    greater-than, colon, double quote, slash, backslash, bar, question
    mark and star. *)
Definition INVALID_CHARS : list char :=
  [LESS; GREATER; COLON; QUOTE; SLASH; BACKSLASH; BAR; QUESTION; STAR].

Definition sanitize_filename (name : str) : str :=
  let name := re_sub_class INVALID_CHARS name in
  let name := replace [SPACE] [UNDERSCORE] name in
  slice name 0 100.

(** A song of [parse_markdown_table]: the dictionary with the keys
    ['index'], ['name'] and ['url']. *)
Record Song : Type := mkSong { song_index : str; song_name : str; song_url : str }.

(** One turn of the loop of [parse_markdown_table] over the lines of the
    file.  The pattern is [len(parts) >= 4] with [parts[1]], [parts[2]]
    and [parts[3]]. *)
Definition table_step (songs : list Song) (line : str) : list Song :=
  if negb (startswith [BAR] line)
     || contains_str (lit "---") line
     || contains_str (lit "Song Name") line
  then songs
  else
    let parts := map strip (split BAR line) in
    match parts with
    | _ :: index :: name :: url :: _ =>
        if match url with [] => false | _ :: _ => true end
           && startswith (lit "http") url
        then songs ++ [mkSong index name url]
        else songs
    | _ => songs
    end.

(** [lines] is what [f.readlines()] returns. *)
Definition parse_markdown_table (lines : list str) : list Song :=
  fold_left table_step lines [].

(** The text [main] writes to the lyrics file of a song: the title line,
    a blank line and the lyrics. *)
Definition lyrics_file_content (name lyrics : str) : str :=
  (lit "# " ++ name ++ [NEWLINE; NEWLINE]) ++ lyrics.

End ExtractLyrics.

(** ** main.py and extract_lyrics_from_browser.py *)

Module Main.

(** What [re.sub] puts for a run of [pending] newlines: two when the run
    has three or more, the run itself otherwise. *)
Definition flush_newlines (pending : nat) : str :=
  if (3 <=? pending)%nat then [NEWLINE; NEWLINE] else repeat NEWLINE pending.

(** [re.sub('\n{3,}', '\n\n', text)]; [pending] is the length of the run
    of newlines being read. *)
Fixpoint collapse_newlines (pending : nat) (text : str) : str :=
  match text with
  | [] => flush_newlines pending
  | c :: rest =>
      if char_eqb c NEWLINE then collapse_newlines (S pending) rest
      else flush_newlines pending ++ c :: collapse_newlines 0 rest
  end.

(** [while lines and not lines[0]: lines.pop(0)]. *)
Fixpoint pop_leading_empty (lines : list str) : list str :=
  match lines with
  | [] => []
  | line :: rest =>
      match line with
      | [] => pop_leading_empty rest
      | _ :: _ => lines
      end
  end.

(** [while lines and not lines[-1]: lines.pop()]. *)
Definition pop_trailing_empty (lines : list str) : list str :=
  rev (pop_leading_empty (rev lines)).

Definition clean_lyrics (text : str) : str :=
  match text with
  | [] => []
  | _ :: _ =>
      let text := collapse_newlines 0 text in
      let lines := map strip (split NEWLINE text) in
      let lines := pop_leading_empty lines in
      let lines := pop_trailing_empty lines in
      join [NEWLINE] lines
  end.

End Main.

(** * Vocabulary of the statements

    What the properties below are stated with: the predicates and the
    reference functions the code is compared with. *)

(** Neither a comma nor a period. *)
Definition kept (x : char) : bool :=
  negb (char_eqb x COMMA) && negb (char_eqb x PERIOD).

(** The Hebrew block, U+0590 through U+05FF. *)
Definition in_hebrew_block (c : char) : Prop := (0x0590 <= c <= 0x05FF)%N.

(** The right-to-left flag as a function of the flags of the title and
    of the lines: the title is Hebrew, or at least two of the first five
    lines are. *)
Definition rtl_of_flags (title_flag : bool) (line_flags : list bool) : bool :=
  title_flag || (2 <=? count_occ bool_dec (firstn 5 line_flags) true)%nat.

(** The loop of [split_into_sections], seen from a state
    [(sections, current)]: what is still to come out of the lines left. *)
Fixpoint runs (current : list str) (lines : list str) : list (list str) :=
  match lines with
  | [] => match current with [] => [] | _ :: _ => [current] end
  | line :: rest =>
      if Cli.is_blank line then
        match current with
        | [] => runs [] rest
        | _ :: _ => current :: runs [] rest
        end
      else runs (current ++ [line]) rest
  end.

(** A line whose [strip()] is not empty. *)
Definition nonblank (line : str) : Prop := strip line <> [].

(** [SECTION_COLORS[i mod 6]]. *)
Definition palette (i : nat) : RGBColor :=
  nth (i mod 6) Cli.SECTION_COLORS (mkRGB 240 240 255).

(** The lines of the section at position [i], each with the colour of
    the section. *)
Definition colored_section (i : nat) (section : list str)
  : list (str * RGBColor) :=
  map (fun line => (line, palette i)) section.

(** The blank line between two sections. *)
Definition separator : str * RGBColor := ([], palette 0).

(** The blocks in order, one separator between two consecutive blocks
    and none after the last. *)
Fixpoint join_sections (blocks : list (list (str * RGBColor)))
  : list (str * RGBColor) :=
  match blocks with
  | [] => []
  | block :: rest =>
      match rest with
      | [] => block
      | _ :: _ => block ++ separator :: join_sections rest
      end
  end.

(** The sections with their positions, counted from [from]. *)
Definition numbered (from : nat) (sections : list (list str))
  : list (nat * list str) :=
  combine (seq from (length sections)) sections.

(** One coloured block per section. *)
Definition colored_blocks (from : nat) (sections : list (list str))
  : list (list (str * RGBColor)) :=
  map (fun item => colored_section (fst item) (snd item))
    (numbered from sections).

(** [content.strip().split('\n')]: the lines [parse_lyrics_file] reads. *)
Definition file_lines (content : str) : list str :=
  split NEWLINE (strip content).

(** The lyric lines [parse_lyrics_file] returns. *)
Definition parsed_lines (stem content : str) : list str :=
  snd (Cli.parse_lyrics_file stem content).

(** A line that sets the title: it starts with a hash and a space. *)
Definition is_title_line (line : str) : bool := startswith [HASH; SPACE] line.

(** A line whose [strip()] is empty. *)
Definition blank (line : str) : Prop := strip line = [].

(** The lines the loop collects, before the blank ones at both ends are
    taken off. *)
Definition collected (lines : list str) : list str :=
  map Cli.clean_punctuation
    (filter (fun line => negb (is_title_line line)) lines).

(** A name [sanitize_filename] has nothing to do on. *)
Definition safe_name (name : str) : Prop :=
  (len name <= 100)%Z
  /\ ~ In SPACE name
  /\ (forall c, In c ExtractLyrics.INVALID_CHARS -> ~ In c name).

(** The title a title line gives: what follows the hash and the space,
    stripped. *)
Definition title_of (line : str) : str := strip (skipn 2 line).

(** What every song of [parse_markdown_table] is like: its address starts
    with [http], and its three fields are stripped and hold no bar. *)
Definition good_song (song : ExtractLyrics.Song) : Prop :=
  startswith (lit "http") (ExtractLyrics.song_url song) = true
  /\ (strip (ExtractLyrics.song_index song) = ExtractLyrics.song_index song
      /\ strip (ExtractLyrics.song_name song) = ExtractLyrics.song_name song
      /\ strip (ExtractLyrics.song_url song) = ExtractLyrics.song_url song)
  /\ (~ In BAR (ExtractLyrics.song_index song)
      /\ ~ In BAR (ExtractLyrics.song_name song)
      /\ ~ In BAR (ExtractLyrics.song_url song)).

(** The part of [s] before the first place where [sep] starts; all of [s]
    when there is none. *)
Fixpoint before (sep s : str) : str :=
  match s with
  | [] => []
  | c :: s' => if startswith sep s then [] else c :: before sep s'
  end.

(** The title once cut at the dash and at the slash. *)
Definition cut_title (title : str) : str :=
  before (lit " / ") (before (lit " - ") title).

(** A string of white space only. *)
Definition all_space (s : str) : Prop := Forall (fun c => isspace c = true) s.

(** The input lines as sections and gaps in turn: each section followed
    by its gap. *)
Fixpoint weave (sections gaps : list (list str)) : list str :=
  match sections, gaps with
  | section :: sections', gap :: gaps' => section ++ gap ++ weave sections' gaps'
  | _, _ => []
  end.

(** * Properties *)

(** ** The functions on small inputs *)

Example split_into_columns_seven_in_three :
  Cli.split_into_columns [1; 2; 3; 4; 5; 6; 7]%Z 3
  = Some [[1; 2; 3]; [4; 5; 6]; [7]]%Z.
Proof. reflexivity. Qed.

Example split_into_columns_more_columns_than_lines :
  Cli.split_into_columns [1; 2]%Z 4 = Some [[1]; [2]; []; []]%Z.
Proof. reflexivity. Qed.

Example split_into_columns_no_column :
  Cli.split_into_columns [1; 2]%Z 0 = None.
Proof. reflexivity. Qed.

Example clean_punctuation_example :
  Cli.clean_punctuation [COMMA; 0x61; PERIOD; PERIOD; 0x62; COMMA]%N
  = [0x61; 0x62]%N.
Proof. reflexivity. Qed.

Example split_into_sections_example :
  Cli.split_into_sections [[0x61]; []; [SPACE]; [0x62]; [0x63]; []]%N
  = [[[0x61]]; [[0x62]; [0x63]]]%N.
Proof. reflexivity. Qed.

Example assign_section_colors_example :
  Cli.assign_section_colors [[[0x61]]; [[0x62]; [0x63]]]%N
  = Some [([0x61%N], mkRGB 240 240 255); ([], mkRGB 240 240 255);
          ([0x62%N], mkRGB 255 220 180); ([0x63%N], mkRGB 255 220 180)].
Proof. reflexivity. Qed.

Example is_hebrew_song_two_lines :
  Cli.is_hebrew_song [0x61]%N [[0x5D0]; [0x61]; [0x5DC]]%N = true
  /\ Cli.is_hebrew_song [0x61]%N [[0x5D0]; [0x61]; [0x62]]%N = false.
Proof. split; reflexivity. Qed.

Example sanitize_filename_example :
  ExtractLyrics.sanitize_filename [0x61; SPACE; LESS; 0x62; QUOTE]%N
  = [0x61; UNDERSCORE; 0x62]%N.
Proof. reflexivity. Qed.

(** ** Lists, slices and loops that append *)

Section ListFacts.

Variable A : Type.

(** A loop that appends one value per turn builds the [map]. *)
Lemma fold_left_snoc (B : Type) (f : B -> A) (l : list B) (init : list A) :
  fold_left (fun acc x => acc ++ [f x]) l init = init ++ map f l.
Proof.
  revert init; induction l as [|x l IH]; intros init; simpl.
  - now rewrite app_nil_r.
  - rewrite IH, <- app_assoc. reflexivity.
Qed.

Lemma firstn_then_next (a b : nat) (l : list A) :
  firstn a l ++ firstn b (skipn a l) = firstn (a + b) l.
Proof.
  revert l; induction a as [|a IH]; intros l.
  - reflexivity.
  - destruct l as [|x l]; simpl.
    + now rewrite firstn_nil.
    + now rewrite IH.
Qed.

(** Consecutive chunks of width [n], [k] of them, make up the first
    [k * n] elements. *)
Lemma chunks_concat (n k : nat) (l : list A) :
  concat (map (fun i => firstn n (skipn (i * n) l)) (seq 0 k))
  = firstn (k * n) l.
Proof.
  induction k as [|k IH].
  - reflexivity.
  - rewrite seq_S, map_app, concat_app, IH. simpl.
    rewrite app_nil_r, firstn_then_next. f_equal. lia.
Qed.

Lemma in_firstn (n : nat) (l : list A) (x : A) :
  In x (firstn n l) -> In x l.
Proof.
  intros H. rewrite <- (firstn_skipn n l). apply in_or_app. now left.
Qed.

Lemma firstn_clamp (a : nat) (l : list A) :
  firstn (Nat.min a (length l)) l = firstn a l.
Proof.
  destruct (Nat.le_gt_cases a (length l)) as [H|H].
  - now rewrite Nat.min_l.
  - rewrite Nat.min_r, firstn_all, firstn_all2 by lia. reflexivity.
Qed.

(** A slice between two bounds that are not negative is a chunk. *)
Lemma slice_chunk (l : list A) (i n : nat) :
  slice l (Z.of_nat i * Z.of_nat n) (Z.of_nat i * Z.of_nat n + Z.of_nat n)
  = firstn n (skipn (i * n) l).
Proof.
  unfold slice, slice_bound, len.
  destruct (Z.ltb_spec (Z.of_nat i * Z.of_nat n) 0) as [H|_]; [lia|].
  destruct (Z.ltb_spec (Z.of_nat i * Z.of_nat n + Z.of_nat n) 0) as [H|_];
    [lia|].
  rewrite <- (firstn_clamp n).
  destruct (Nat.le_gt_cases (i * n) (length l)) as [Hle|Hgt].
  - replace (Z.to_nat (Z.min (Z.of_nat i * Z.of_nat n) (Z.of_nat (length l))))
      with (i * n)%nat by lia.
    f_equal. rewrite length_skipn. lia.
  - rewrite (skipn_all2 l (n := i * n)) by lia.
    rewrite firstn_nil.
    replace (Z.to_nat _) with 0%nat by lia.
    reflexivity.
Qed.

End ListFacts.

(** ** Layout *)

Section Layout.

Open Scope Z_scope.

Lemma columns_loop (A : Type) (lines : list A) (k n : nat) :
  fold_left
    (fun columns i =>
       let start := i * Z.of_nat n in
       let end_ := start + Z.of_nat n in
       columns ++ [slice lines start end_])
    (range (Z.of_nat k)) []
  = map (fun i => firstn n (skipn (i * n) lines)) (seq 0 k).
Proof.
  rewrite (fold_left_snoc
             (fun i => slice lines (i * Z.of_nat n) (i * Z.of_nat n + Z.of_nat n))).
  simpl. unfold range. rewrite Nat2Z.id, map_map.
  apply map_ext. intros i. apply slice_chunk.
Qed.

(** The width of a column times the number of columns covers the
    lines. *)
Lemma lines_per_col_covers (n k : Z) :
  0 <= n -> 1 <= k ->
  0 <= (n + k - 1) / k /\ n <= k * ((n + k - 1) / k).
Proof.
  intros Hn Hk.
  pose proof (Z.div_mod (n + k - 1) k ltac:(lia)) as E.
  pose proof (Z.mod_pos_bound (n + k - 1) k ltac:(lia)) as B.
  split; [apply Z.div_pos; lia | lia].
Qed.

Lemma split_into_columns_spec (A : Type) (lines : list A) (k : Z) :
  1 <= k ->
  exists cols,
    Cli.split_into_columns lines k = Some cols
    /\ len cols = k
    /\ concat cols = lines.
Proof.
  intros Hk. unfold Cli.split_into_columns.
  destruct (Z.eqb_spec k 0) as [E|_]; [lia|].
  destruct (lines_per_col_covers (n := len lines) (k := k)) as [Hw Hcov];
    [unfold len; lia | assumption |].
  set (w := (len lines + k - 1) / k) in *. clearbody w.
  assert (exists kn, k = Z.of_nat kn) as [kn ->]
      by (exists (Z.to_nat k); lia).
  assert (exists wn, w = Z.of_nat wn) as [wn ->]
      by (exists (Z.to_nat w); lia).
  exists (map (fun i => firstn wn (skipn (i * wn) lines)) (seq 0 kn)).
  split; [f_equal; apply columns_loop | split].
  - unfold len. now rewrite length_map, length_seq.
  - rewrite chunks_concat. apply firstn_all2. unfold len in Hcov. nia.
Qed.

End Layout.

(** C1. For every list of lines and every column count [k >= 1], the [k]
    columns returned by [split_into_columns], concatenated in order, are
    exactly the original list: the call returns, it returns [k] columns,
    and nothing is added or dropped. *)
Theorem split_into_columns_concat (A : Type) (lines : list A) (k : Z) :
  (1 <= k)%Z ->
  exists cols,
    Cli.split_into_columns lines k = Some cols
    /\ len cols = k
    /\ concat cols = lines.
Proof.
  apply split_into_columns_spec.
Qed.

Lemma split_into_columns_concat_witness :
  (1 <= 3)%Z
  /\ exists cols,
       Cli.split_into_columns [1; 2; 3; 4; 5; 6; 7]%Z 3 = Some cols
       /\ len cols = 3%Z
       /\ concat cols = [1; 2; 3; 4; 5; 6; 7]%Z.
Proof.
  split; [lia | apply (@split_into_columns_concat Z); lia].
Defined.

(** The column split written out in [generate_pptx] is the same split, at
    the column count of the web layout, and loses nothing either. *)
Lemma generate_pptx_columns_concat (A : Type) (colored_lines : list A) :
  Webapp.generate_pptx_columns colored_lines
  = Cli.split_into_columns colored_lines
      (columns (Webapp.get_optimal_layout colored_lines))
  /\ exists cols,
       Webapp.generate_pptx_columns colored_lines = Some cols
       /\ concat cols = colored_lines.
Proof.
  split; [reflexivity|].
  destruct (split_into_columns_spec colored_lines
              (k := columns (Webapp.get_optimal_layout colored_lines)))
    as (cols & E & _ & C).
  - unfold Webapp.get_optimal_layout.
    repeat match goal with
           | |- context [if ?b then _ else _] => destruct b
           end; simpl; lia.
  - exists cols. split; [exact E | exact C].
Qed.

(** Both breakpoint tables read the length of the list and nothing
    else. *)
Ltac layout_cases :=
  unfold Cli.get_optimal_layout, Webapp.get_optimal_layout; cbv zeta;
  repeat match goal with
         | |- context [(?a <=? ?b)%Z] => destruct (Z.leb_spec a b)
         end;
  simpl.

Lemma cli_layout_of_len (A B : Type) (lines1 : list A) (lines2 : list B) :
  len lines1 = len lines2 ->
  Cli.get_optimal_layout lines1 = Cli.get_optimal_layout lines2.
Proof.
  intros E. unfold Cli.get_optimal_layout. now rewrite E.
Qed.

Lemma webapp_layout_of_len (A B : Type) (lines1 : list A) (lines2 : list B) :
  len lines1 = len lines2 ->
  Webapp.get_optimal_layout lines1 = Webapp.get_optimal_layout lines2.
Proof.
  intros E. unfold Webapp.get_optimal_layout. now rewrite E.
Qed.

(** C2. [get_optimal_layout] is a function of the line count only: two
    lists of lines of the same length get the same columns and font size,
    whatever the lines hold, in the command-line script and in the web
    backend alike. *)
Theorem get_optimal_layout_length_only
    (A B : Type) (lines1 : list A) (lines2 : list B) :
  length lines1 = length lines2 ->
  Cli.get_optimal_layout lines1 = Cli.get_optimal_layout lines2
  /\ Webapp.get_optimal_layout lines1 = Webapp.get_optimal_layout lines2.
Proof.
  intros E.
  assert (len lines1 = len lines2) as E' by (unfold len; now rewrite E).
  split; [now apply cli_layout_of_len | now apply webapp_layout_of_len].
Qed.

Lemma get_optimal_layout_length_only_witness :
  length [[0x61%N]; [0x62%N]] = length [[0x5D0%N; 0x5D1%N]; []]
  /\ Cli.get_optimal_layout [[0x61%N]; [0x62%N]]
     = Cli.get_optimal_layout [[0x5D0%N; 0x5D1%N]; []]
  /\ Webapp.get_optimal_layout [[0x61%N]; [0x62%N]]
     = Webapp.get_optimal_layout [[0x5D0%N; 0x5D1%N]; []].
Proof.
  split; [reflexivity | apply get_optimal_layout_length_only; reflexivity].
Defined.

(** C3, as the claim states it, fails: at 57 lines the command-line script
    keeps four columns at font size 12 and the web backend moves to five
    columns at font size 10. *)
Lemma layouts_differ_at_57_lines :
  Cli.get_optimal_layout (repeat ([] : str) 57)
  <> Webapp.get_optimal_layout (repeat ([] : str) 57).
Proof.
  vm_compute. discriminate.
Qed.

(** C3, amended. The two breakpoint tables return the same layout exactly
    when the line count is at most 56 or above 72; from 57 to 72 lines the
    command-line script returns 4 columns at size 12 and the web backend
    5 columns at size 10. *)
Theorem layouts_agree_iff (A : Type) (lines : list A) :
  (Cli.get_optimal_layout lines = Webapp.get_optimal_layout lines
   <-> (len lines <= 56 \/ 72 < len lines)%Z)
  /\ ((56 < len lines <= 72)%Z <->
      Cli.get_optimal_layout lines = mkLayout 4 12
      /\ Webapp.get_optimal_layout lines = mkLayout 5 10).
Proof.
  split; split; layout_cases;
    try (intros [E1 E2]); try intros E;
    try discriminate; try lia; try tauto; try (split; reflexivity).
Qed.

(** C4. The breakpoints are monotonic in both tables: more lines never
    get fewer columns nor a larger font. *)
Theorem get_optimal_layout_monotonic
    (A B : Type) (lines1 : list A) (lines2 : list B) :
  length lines1 <= length lines2 ->
  (columns (Cli.get_optimal_layout lines1)
   <= columns (Cli.get_optimal_layout lines2)
   /\ font_size (Cli.get_optimal_layout lines1)
      >= font_size (Cli.get_optimal_layout lines2)
   /\ columns (Webapp.get_optimal_layout lines1)
      <= columns (Webapp.get_optimal_layout lines2)
   /\ font_size (Webapp.get_optimal_layout lines1)
      >= font_size (Webapp.get_optimal_layout lines2))%Z.
Proof.
  intros H.
  assert (len lines1 <= len lines2)%Z as H' by (unfold len; lia).
  repeat split; layout_cases; lia.
Qed.

Lemma get_optimal_layout_monotonic_witness :
  length (repeat ([] : str) 20) <= length (repeat ([] : str) 60)
  /\ (columns (Cli.get_optimal_layout (repeat ([] : str) 20))
      <= columns (Cli.get_optimal_layout (repeat ([] : str) 60))
      /\ font_size (Cli.get_optimal_layout (repeat ([] : str) 20))
         >= font_size (Cli.get_optimal_layout (repeat ([] : str) 60))
      /\ columns (Webapp.get_optimal_layout (repeat ([] : str) 20))
         <= columns (Webapp.get_optimal_layout (repeat ([] : str) 60))
      /\ font_size (Webapp.get_optimal_layout (repeat ([] : str) 20))
         >= font_size (Webapp.get_optimal_layout (repeat ([] : str) 60)))%Z.
Proof.
  split;
    [ vm_compute; lia
    | apply get_optimal_layout_monotonic; vm_compute; lia ].
Defined.

(** ** Text cleaning *)

Section Replace.

(** Replacing a one-character string by the empty string removes every
    occurrence of that character. *)
Lemma replace_char_by_empty (c : char) (s : str) :
  replace [c] [] s = filter (fun x => negb (char_eqb x c)) s.
Proof.
  unfold replace.
  induction s as [|x s IH]; [reflexivity|].
  simpl. unfold char_eqb at 1. rewrite andb_true_r, (N.eqb_sym c x).
  fold (char_eqb x c).
  destruct (char_eqb x c); simpl; now rewrite IH.
Qed.

(** Replacing a character by another one maps the string. *)
Lemma replace_char_by_char (c d : char) (s : str) :
  replace [c] [d] s = map (fun x => if char_eqb x c then d else x) s.
Proof.
  unfold replace.
  induction s as [|x s IH]; [reflexivity|].
  simpl. unfold char_eqb at 1. rewrite andb_true_r, (N.eqb_sym c x).
  fold (char_eqb x c).
  destruct (char_eqb x c); simpl; now rewrite IH.
Qed.

Lemma char_eqb_eq (a b : char) : char_eqb a b = true <-> a = b.
Proof. apply N.eqb_eq. Qed.

Lemma filter_twice (A : Type) (p q : A -> bool) (l : list A) :
  filter p (filter q l) = filter (fun x => q x && p x) l.
Proof.
  induction l as [|x l IH]; [reflexivity|].
  simpl. destruct (q x); simpl; [destruct (p x)|]; now rewrite IH.
Qed.

Lemma filter_idem (A : Type) (p : A -> bool) (l : list A) :
  filter p (filter p l) = filter p l.
Proof.
  induction l as [|x l IH]; [reflexivity|].
  simpl. destruct (p x) eqn:E; simpl; rewrite ?E, IH; reflexivity.
Qed.

Lemma clean_punctuation_filter (t : str) :
  Cli.clean_punctuation t = filter kept t.
Proof.
  unfold Cli.clean_punctuation.
  now rewrite !replace_char_by_empty, filter_twice.
Qed.

Lemma clean_punctuation_free (t : str) :
  ~ In COMMA (Cli.clean_punctuation t)
  /\ ~ In PERIOD (Cli.clean_punctuation t).
Proof.
  rewrite clean_punctuation_filter.
  split; intros H; apply filter_In in H; destruct H as [_ H];
    vm_compute in H; discriminate.
Qed.

Lemma clean_punctuation_idem (t : str) :
  Cli.clean_punctuation (Cli.clean_punctuation t) = Cli.clean_punctuation t.
Proof.
  rewrite !clean_punctuation_filter. apply filter_idem.
Qed.

End Replace.

(** C5. Cleaning punctuation is idempotent, and what it returns holds no
    comma and no period; the web backend's copy is the same function. *)
Theorem clean_punctuation_idempotent (t : str) :
  Cli.clean_punctuation (Cli.clean_punctuation t) = Cli.clean_punctuation t
  /\ ~ In COMMA (Cli.clean_punctuation t)
  /\ ~ In PERIOD (Cli.clean_punctuation t)
  /\ Webapp.clean_punctuation t = Cli.clean_punctuation t.
Proof.
  split; [apply clean_punctuation_idem|].
  destruct (clean_punctuation_free t) as [Hc Hp].
  repeat split; assumption.
Qed.

(** ** Script detection *)

Section Hebrew.

Lemma is_hebrew_iff (t : str) :
  Cli.is_hebrew t = true <-> exists c, In c t /\ in_hebrew_block c.
Proof.
  unfold in_hebrew_block.
  induction t as [|x t IH]; simpl.
  - split; [discriminate | intros (c & [] & _)].
  - destruct (N.leb_spec 0x0590 x) as [L|L];
      destruct (N.leb_spec x 0x05FF) as [U|U]; simpl;
      try (rewrite IH; split;
           [ intros (c & Hin & Hc); exists c; split; [now right | exact Hc]
           | intros (c & [->|Hin] & Hc); [lia | exists c; now split] ]).
    split; [intros _; exists x; split; [now left | lia] | reflexivity].
Qed.

Lemma webapp_is_hebrew (t : str) : Webapp.is_hebrew t = Cli.is_hebrew t.
Proof.
  induction t as [|x t IH]; simpl; [reflexivity | now rewrite IH].
Qed.

(** [l[0:5]] is the first five elements. *)
Lemma slice_first (A : Type) (l : list A) (n : nat) :
  slice l 0 (Z.of_nat n) = firstn n l.
Proof.
  unfold slice, slice_bound, len. simpl.
  destruct (Z.ltb_spec (Z.of_nat n) 0) as [H|_]; [lia|].
  replace (Z.min 0 (Z.of_nat (length l))) with 0%Z by lia.
  rewrite <- (firstn_clamp n l), Z.sub_0_r.
  simpl skipn. f_equal. lia.
Qed.

Lemma count_flags (A : Type) (p : A -> bool) (l : list A) (acc : Z) :
  fold_left Z.add (map (fun _ => 1%Z) (filter p l)) acc
  = (acc + Z.of_nat (count_occ bool_dec (map p l) true))%Z.
Proof.
  revert acc; induction l as [|x l IH]; intros acc; simpl.
  - lia.
  - destruct (p x); simpl.
    + rewrite IH. destruct (bool_dec true true); [lia | congruence].
    + rewrite IH. destruct (bool_dec false true); [discriminate | lia].
Qed.

Lemma is_hebrew_song_flags (title : str) (lyrics_lines : list str) :
  Cli.is_hebrew_song title lyrics_lines
  = rtl_of_flags (Cli.is_hebrew title) (map Cli.is_hebrew lyrics_lines).
Proof.
  unfold Cli.is_hebrew_song, rtl_of_flags.
  destruct (Cli.is_hebrew title); [reflexivity|]. rewrite orb_false_l.
  change 5%Z with (Z.of_nat 5).
  rewrite slice_first, count_flags, <- firstn_map.
  destruct (Z.leb_spec 2 (0 + Z.of_nat (count_occ bool_dec
               (firstn 5 (map Cli.is_hebrew lyrics_lines)) true)));
    destruct (Nat.leb_spec 2 (count_occ bool_dec
               (firstn 5 (map Cli.is_hebrew lyrics_lines)) true));
    try reflexivity; lia.
Qed.

End Hebrew.

(** C8. [is_hebrew] is true exactly of the strings that hold a character
    between U+0590 and U+05FF, and the right-to-left flag of a song is a
    function of the values of [is_hebrew] on its title and on its lyric
    lines: in the command-line script the title's flag or at least two
    flags among the first five lines, in the web backend the title's
    flag. *)
Theorem is_hebrew_script_detection :
  (forall t : str,
      Cli.is_hebrew t = true <-> exists c, In c t /\ (0x0590 <= c <= 0x05FF)%N)
  /\ (forall t : str, Webapp.is_hebrew t = Cli.is_hebrew t)
  /\ (forall (title : str) (lyrics_lines : list str),
         Cli.is_hebrew_song title lyrics_lines
         = rtl_of_flags (Cli.is_hebrew title) (map Cli.is_hebrew lyrics_lines))
  /\ (forall (title : str) (lyrics_lines : list str),
         Webapp.generate_pptx_is_rtl title lyrics_lines
         = Webapp.is_hebrew title).
Proof.
  split; [exact is_hebrew_iff|].
  split; [exact webapp_is_hebrew|].
  split; [exact is_hebrew_song_flags | reflexivity].
Qed.

(** ** Sections *)

Section Sections.

Lemma sections_loop (lines : list str) (sections : list (list str))
    (current : list str) :
  Cli.sections_finish (fold_left Cli.sections_step lines (sections, current))
  = sections ++ runs current lines.
Proof.
  revert sections current.
  induction lines as [|line rest IH]; intros sections current; simpl.
  - destruct current; [now rewrite app_nil_r | reflexivity].
  - destruct (Cli.is_blank line).
    + destruct current as [|c current]; rewrite IH;
        [reflexivity | now rewrite <- app_assoc].
    + apply IH.
Qed.

Lemma split_into_sections_runs (lines : list str) :
  Cli.split_into_sections lines = runs [] lines.
Proof. apply sections_loop. Qed.

Lemma is_blank_false (line : str) :
  Cli.is_blank line = false <-> nonblank line.
Proof.
  unfold Cli.is_blank, nonblank.
  destruct (strip line); split; congruence.
Qed.

Lemma is_blank_true (line : str) :
  Cli.is_blank line = true <-> strip line = [].
Proof.
  unfold Cli.is_blank.
  destruct (strip line); split; congruence.
Qed.

Lemma runs_nonempty (lines current : list str) :
  Forall (fun section => section <> []) (runs current lines).
Proof.
  revert current; induction lines as [|line rest IH]; intros current; simpl.
  - destruct current; constructor; [discriminate | constructor].
  - destruct (Cli.is_blank line); [|apply IH].
    destruct current; [apply IH | constructor; [discriminate | apply IH]].
Qed.

Lemma runs_nonblank (lines current : list str) :
  Forall nonblank current ->
  Forall (Forall nonblank) (runs current lines).
Proof.
  revert current; induction lines as [|line rest IH]; intros current H; simpl.
  - destruct current; constructor; [exact H | constructor].
  - destruct (Cli.is_blank line) eqn:E.
    + destruct current; [now apply IH | constructor; [exact H | now apply IH]].
    + apply IH, Forall_app. split; [exact H|].
      constructor; [now apply is_blank_false | constructor].
Qed.

Lemma runs_concat (lines current : list str) :
  concat (runs current lines)
  = current ++ filter (fun line => negb (Cli.is_blank line)) lines.
Proof.
  revert current; induction lines as [|line rest IH]; intros current; simpl.
  - destruct current; simpl; now rewrite ?app_nil_r.
  - destruct (Cli.is_blank line); simpl.
    + destruct current; simpl; now rewrite IH.
    + now rewrite IH, <- app_assoc.
Qed.

(** A run of lines that are not blank goes into the section being
    filled. *)
Lemma runs_run (run rest current : list str) :
  Forall nonblank run ->
  runs current (run ++ rest) = runs (current ++ run) rest.
Proof.
  revert current; induction run as [|line run IH]; intros current H; simpl.
  - now rewrite app_nil_r.
  - inversion H as [|? ? Hl Hr]; subst.
    apply is_blank_false in Hl. rewrite Hl, IH by assumption.
    now rewrite <- app_assoc.
Qed.

(** The sections are the maximal runs: blank lines before a run are
    passed over, and a run that a blank line or the end of the input
    closes is one section, whole. *)
Lemma split_into_sections_maximal :
  Cli.split_into_sections [] = []
  /\ (forall blank rest,
         strip blank = [] ->
         Cli.split_into_sections (blank :: rest)
         = Cli.split_into_sections rest)
  /\ (forall run blank rest,
         run <> [] -> Forall nonblank run -> strip blank = [] ->
         Cli.split_into_sections (run ++ blank :: rest)
         = run :: Cli.split_into_sections rest)
  /\ (forall run,
         run <> [] -> Forall nonblank run ->
         Cli.split_into_sections run = [run]).
Proof.
  split; [reflexivity|]. split; [|split].
  - intros blank rest Hb. rewrite !split_into_sections_runs. simpl.
    apply is_blank_true in Hb. now rewrite Hb.
  - intros run blank rest Hne Hrun Hb. rewrite !split_into_sections_runs.
    rewrite runs_run by assumption. simpl.
    apply is_blank_true in Hb. rewrite Hb.
    destruct run; [congruence | reflexivity].
  - intros run Hne Hrun. rewrite split_into_sections_runs.
    rewrite <- (app_nil_r run) at 1. rewrite runs_run by assumption.
    simpl. destruct run; [congruence | reflexivity].
Qed.

(** The lines read are the sections with gaps of blank lines between
    them: a gap before the first section, a gap after each section, and
    no gap empty but the first and the last. *)
Lemma runs_gaps (lines : list str) :
  (forall current,
      current <> [] ->
      exists gaps,
        length gaps = length (runs current lines)
        /\ Forall (Forall blank) gaps
        /\ Forall (fun gap => gap <> []) (removelast gaps)
        /\ current ++ lines = weave (runs current lines) gaps)
  /\ (exists first_gap gaps,
         Forall blank first_gap
         /\ length gaps = length (runs [] lines)
         /\ Forall (Forall blank) gaps
         /\ Forall (fun gap => gap <> []) (removelast gaps)
         /\ lines = first_gap ++ weave (runs [] lines) gaps).
Proof.
  induction lines as [|line rest [IH1 (g0 & gaps & Hg0 & Hlen & Hb & Hne & E)]].
  - split.
    + intros current Hc. exists [[]].
      destruct current as [|c current]; [congruence|].
      repeat split; repeat constructor.
    + exists [], []. repeat split; constructor.
  - cbn [runs]. destruct (Cli.is_blank line) eqn:B.
    + apply is_blank_true in B. split.
      * intros current Hc. destruct current as [|c current]; [congruence|].
        exists ((line :: g0) :: gaps). split; [simpl; now rewrite Hlen|].
        split; [constructor; [now constructor | exact Hb]|].
        split.
        -- destruct gaps as [|gap gaps]; [constructor|].
           change (removelast ((line :: g0) :: gap :: gaps))
             with ((line :: g0) :: removelast (gap :: gaps)).
           constructor; [discriminate | exact Hne].
        -- cbn [weave]. rewrite E at 1. reflexivity.
      * exists (line :: g0), gaps.
        split; [now constructor|]. repeat split; try assumption.
        simpl. now rewrite <- E.
    + split.
      * intros current _.
        destruct (IH1 (current ++ [line])) as (gs & H1 & H2 & H3 & H4).
        { now destruct current. }
        exists gs. repeat split; try assumption.
        rewrite <- H4, <- app_assoc. reflexivity.
      * destruct (IH1 [line]) as (gs & H1 & H2 & H3 & H4); [discriminate|].
        exists [], gs. split; [constructor|].
        repeat split; try assumption.
Qed.

End Sections.

(** C6. [split_into_sections] returns exactly the maximal runs of lines
    that are not blank, in order: no returned section is empty, every
    line of every returned section has a [strip()] that is not empty, and
    the sections concatenated are the input lines whose [strip()] is not
    empty.  The runs are maximal: the input is a gap of blank lines, then
    each returned section followed by a gap of blank lines, and only the
    first gap and the last may be empty, so that two sections are always
    parted by a blank line and a section never stops before one. *)
Theorem split_into_sections_nonblank_runs (lines : list str) :
  Forall (fun section => section <> []) (Cli.split_into_sections lines)
  /\ Forall (Forall (fun line => strip line <> []))
       (Cli.split_into_sections lines)
  /\ concat (Cli.split_into_sections lines)
     = filter (fun line => match strip line with [] => false | _ => true end)
         lines
  /\ exists first_gap gaps,
       Forall (fun line => strip line = []) first_gap
       /\ length gaps = length (Cli.split_into_sections lines)
       /\ Forall (Forall (fun line => strip line = [])) gaps
       /\ Forall (fun gap => gap <> []) (removelast gaps)
       /\ lines = first_gap ++ weave (Cli.split_into_sections lines) gaps.
Proof.
  rewrite split_into_sections_runs.
  split; [apply runs_nonempty|].
  split; [apply runs_nonblank; constructor|].
  split.
  - rewrite runs_concat. simpl. apply filter_ext.
    intros line. unfold Cli.is_blank. now destruct (strip line).
  - exact (proj2 (runs_gaps lines)).
Qed.

(** ** Section colours *)

Section Colors.

Lemma getitem_palette (i : nat) :
  getitem Cli.SECTION_COLORS (Z.of_nat i mod len Cli.SECTION_COLORS)
  = Some (palette i).
Proof.
  change (len Cli.SECTION_COLORS) with (Z.of_nat 6).
  rewrite <- Nat2Z.inj_mod. unfold palette.
  pose proof (Nat.mod_upper_bound i 6 ltac:(discriminate)) as B.
  set (m := (i mod 6)%nat) in *. clearbody m.
  do 6 (destruct m as [|m]; [reflexivity|]). lia.
Qed.

Lemma colors_loop (rest : list (list str)) :
  forall (from : nat) (acc : list (str * RGBColor)),
    fold_left
      (Cli.colors_step (Z.of_nat (from + length rest)))
      (combine (map Z.of_nat (seq from (length rest))) rest) (Some acc)
    = Some (acc ++ join_sections (colored_blocks from rest)).
Proof.
  induction rest as [|section rest IH]; intros from acc.
  - simpl. now rewrite app_nil_r.
  - cbn [length seq map combine fold_left].
    unfold Cli.colors_step at 2.
    rewrite getitem_palette.
    rewrite (fold_left_snoc (fun line => (line, palette from))).
    change (getitem Cli.SECTION_COLORS 0) with (Some (palette 0)).
    cbv iota beta. fold separator.
    fold (colored_section from section).
    destruct rest as [|next rest];
      match goal with
      | |- context [(?a <? ?b)%Z] => destruct (Z.ltb_spec a b) as [H|H]
      end;
      cbn [length] in H; try lia.
    + reflexivity.
    + replace (from + S (length (next :: rest)))
        with (S from + length (next :: rest)) by lia.
      rewrite IH.
      unfold colored_blocks, numbered.
      cbn [length seq combine map join_sections fst snd].
      now rewrite <- !app_assoc.
Qed.

Lemma assign_section_colors_spec (sections : list (list str)) :
  Cli.assign_section_colors sections
  = Some (join_sections (colored_blocks 0 sections)).
Proof.
  unfold Cli.assign_section_colors, enumerate, range, len.
  rewrite Nat2Z.id. apply (colors_loop sections 0 []).
Qed.

End Colors.

(** C7. Colours go by the position of the section modulo the size of the
    palette: the result of [assign_section_colors] is the sections in
    order, the lines of the section at position [i] (from 0) each paired
    with [SECTION_COLORS[i mod 6]], with one blank line of colour
    [SECTION_COLORS[0]] between two consecutive sections and none after
    the last; the loop written out in [generate_pptx] builds the same
    list. *)
Theorem assign_section_colors_by_position (sections : list (list str)) :
  Cli.assign_section_colors sections
  = Some (join_sections (colored_blocks 0 sections))
  /\ Webapp.generate_pptx_colored_lines sections
     = Some (join_sections (colored_blocks 0 sections))
  /\ (forall i : nat,
         getitem Cli.SECTION_COLORS (Z.of_nat i mod 6) = Some (palette i)).
Proof.
  split; [apply assign_section_colors_spec|].
  split; [apply assign_section_colors_spec | apply getitem_palette].
Qed.

(** ** Parsing a lyrics file *)

Section Parse.

Lemma parse_step_eq (title : str) (acc : list str) (found : bool)
    (line : str) :
  Cli.parse_step (title, acc, found) line
  = if is_title_line line
    then (strip (slice_from line 2), acc, true)
    else (title, acc ++ [Cli.clean_punctuation line], found).
Proof. reflexivity. Qed.

Lemma parse_loop (lines : list str) :
  forall (title : str) (acc : list str) (found : bool),
    snd (fst (fold_left Cli.parse_step lines (title, acc, found)))
    = acc ++ collected lines.
Proof.
  unfold collected.
  induction lines as [|line lines IH]; intros title acc found.
  - simpl. now rewrite app_nil_r.
  - cbn [fold_left filter]. rewrite parse_step_eq.
    destruct (is_title_line line); cbn [negb map].
    + apply IH.
    + rewrite IH, <- app_assoc. reflexivity.
Qed.

Lemma parsed_lines_eq (stem content : str) :
  parsed_lines stem content
  = Cli.pop_trailing_blank
      (Cli.pop_leading_blank (collected (file_lines content))).
Proof.
  unfold parsed_lines, Cli.parse_lyrics_file.
  fold (file_lines content).
  pose proof (parse_loop (file_lines content)
                (replace [UNDERSCORE] [SPACE] stem) [] false) as E.
  destruct (fold_left Cli.parse_step (file_lines content)
              (replace [UNDERSCORE] [SPACE] stem, [], false))
    as [[title lyrics] found].
  simpl in E. subst lyrics. reflexivity.
Qed.

Lemma pop_leading_blank_spec (l : list str) :
  exists pre,
    l = pre ++ Cli.pop_leading_blank l
    /\ Forall blank pre
    /\ (forall x r, Cli.pop_leading_blank l = x :: r -> ~ blank x).
Proof.
  induction l as [|x l (pre & E & Hpre & Hhd)]; simpl.
  - exists []. repeat split; [constructor | discriminate].
  - destruct (Cli.is_blank x) eqn:B.
    + exists (x :: pre). repeat split.
      * simpl. now rewrite <- E.
      * constructor; [now apply is_blank_true | exact Hpre].
      * exact Hhd.
    + exists []. repeat split; [constructor|].
      intros y r [= <- _]. now apply is_blank_false.
Qed.

Lemma pop_trailing_blank_spec (l : list str) :
  exists post,
    l = Cli.pop_trailing_blank l ++ post
    /\ Forall blank post
    /\ (Cli.pop_trailing_blank l <> [] ->
        ~ blank (last (Cli.pop_trailing_blank l) [])).
Proof.
  unfold Cli.pop_trailing_blank.
  destruct (pop_leading_blank_spec (rev l)) as (pre & E & Hpre & Hhd).
  exists (rev pre). repeat split.
  - rewrite <- rev_app_distr, <- E. now rewrite rev_involutive.
  - now apply Forall_rev.
  - intros Hne.
    destruct (Cli.pop_leading_blank (rev l)) as [|x r] eqn:P;
      [now elim Hne|].
    simpl. rewrite last_last. now apply (Hhd x r).
Qed.

Lemma clean_punctuation_lines (lines : list str) (line : str) :
  In line (collected lines) ->
  exists src,
    In src lines /\ is_title_line src = false
    /\ line = Cli.clean_punctuation src.
Proof.
  unfold collected. intros H.
  apply in_map_iff in H. destruct H as (src & <- & H).
  apply filter_In in H. destruct H as [Hin Hk].
  exists src. repeat split; [exact Hin|].
  now destruct (is_title_line src).
Qed.

Lemma parsed_lines_segment (stem content : str) :
  exists pre post,
    collected (file_lines content)
    = pre ++ parsed_lines stem content ++ post
    /\ Forall blank pre /\ Forall blank post.
Proof.
  rewrite parsed_lines_eq.
  destruct (pop_leading_blank_spec (collected (file_lines content)))
    as (pre & E & Hpre & _).
  destruct (pop_trailing_blank_spec
              (Cli.pop_leading_blank (collected (file_lines content))))
    as (post & E' & Hpost & _).
  exists pre, post. repeat split; try assumption.
  now rewrite <- E', <- E.
Qed.

Lemma parsed_lines_ends (stem content : str) :
  parsed_lines stem content <> [] ->
  ~ blank (hd [] (parsed_lines stem content))
  /\ ~ blank (last (parsed_lines stem content) []).
Proof.
  rewrite parsed_lines_eq.
  set (raw := collected (file_lines content)).
  destruct (pop_leading_blank_spec raw) as (pre & _ & _ & Hhd).
  destruct (pop_trailing_blank_spec (Cli.pop_leading_blank raw))
    as (post & E & _ & Hlast).
  intros Hne. split; [|now apply Hlast].
  destruct (Cli.pop_trailing_blank (Cli.pop_leading_blank raw))
    as [|x r]; [now elim Hne|].
  simpl. apply (Hhd x (r ++ post)). exact E.
Qed.

End Parse.

(** C9, as the claim states it, fails: a line that starts with a comma or
    a period before the hash is not a title line, and cleaning it leaves a
    lyric line that starts with a hash and a space.  Here the file holds
    the one line [,# x]. *)
Lemma parse_lyrics_file_keeps_hash_line :
  ~ (forall line,
        In line (snd (Cli.parse_lyrics_file [] [COMMA; HASH; SPACE; 0x78%N])) ->
        startswith [HASH; SPACE] line = false).
Proof.
  intros H. specialize (H [HASH; SPACE; 0x78%N]).
  vm_compute in H. discriminate H. now left.
Qed.

(** C9, amended. For every lyrics file content, no lyric line returned by
    [parse_lyrics_file] holds a comma or a period; every returned line is
    the cleaning of a line of the file that does not start with a hash and
    a space; when the list is not empty, its first and its last line have
    a [strip()] that is not empty; and the list is what the loop collected
    less blank lines at its two ends, so the blank lines inside are
    kept. *)
Theorem parse_lyrics_file_lines (stem content : str) :
  (forall line,
      In line (snd (Cli.parse_lyrics_file stem content)) ->
      ~ In COMMA line /\ ~ In PERIOD line)
  /\ (forall line,
         In line (snd (Cli.parse_lyrics_file stem content)) ->
         exists src,
           In src (split NEWLINE (strip content))
           /\ startswith [HASH; SPACE] src = false
           /\ line = Cli.clean_punctuation src)
  /\ (snd (Cli.parse_lyrics_file stem content) <> [] ->
      strip (hd [] (snd (Cli.parse_lyrics_file stem content))) <> []
      /\ strip (last (snd (Cli.parse_lyrics_file stem content)) []) <> [])
  /\ (exists pre post,
         map Cli.clean_punctuation
           (filter (fun line => negb (startswith [HASH; SPACE] line))
              (split NEWLINE (strip content)))
         = pre ++ snd (Cli.parse_lyrics_file stem content) ++ post
         /\ Forall (fun line => strip line = []) pre
         /\ Forall (fun line => strip line = []) post).
Proof.
  fold (parsed_lines stem content). fold (file_lines content).
  assert (Hsrc : forall line,
             In line (parsed_lines stem content) ->
             exists src,
               In src (file_lines content)
               /\ startswith [HASH; SPACE] src = false
               /\ line = Cli.clean_punctuation src).
  { intros line Hin. apply clean_punctuation_lines.
    destruct (parsed_lines_segment stem content) as (pre & post & E & _).
    rewrite E. apply in_or_app. right. apply in_or_app. now left. }
  split; [|split; [exact Hsrc | split]].
  - intros line Hin. destruct (Hsrc line Hin) as (src & _ & _ & ->).
    apply clean_punctuation_free.
  - apply parsed_lines_ends.
  - apply parsed_lines_segment.
Qed.

Lemma parse_lyrics_file_lines_witness :
  snd (Cli.parse_lyrics_file []
         [HASH; SPACE; 0x54; NEWLINE; NEWLINE; 0x61; COMMA; NEWLINE; SPACE;
          NEWLINE; 0x62; PERIOD; NEWLINE]%N)
  = [[0x61]; [SPACE]; [0x62]]%N
  /\ strip (hd [] (snd (Cli.parse_lyrics_file []
         [HASH; SPACE; 0x54; NEWLINE; NEWLINE; 0x61; COMMA; NEWLINE; SPACE;
          NEWLINE; 0x62; PERIOD; NEWLINE]%N))) <> []
  /\ strip (last (snd (Cli.parse_lyrics_file []
         [HASH; SPACE; 0x54; NEWLINE; NEWLINE; 0x61; COMMA; NEWLINE; SPACE;
          NEWLINE; 0x62; PERIOD; NEWLINE]%N)) []) <> [].
Proof.
  split; [reflexivity|].
  apply (proj1 (proj2 (proj2 (parse_lyrics_file_lines []
           [HASH; SPACE; 0x54; NEWLINE; NEWLINE; 0x61; COMMA; NEWLINE; SPACE;
            NEWLINE; 0x62; PERIOD; NEWLINE]%N)))).
  vm_compute. discriminate.
Defined.

(** ** File names *)

Section FileNames.

Lemma sanitize_filename_eq (name : str) :
  ExtractLyrics.sanitize_filename name
  = firstn 100
      (map (fun x => if char_eqb x SPACE then UNDERSCORE else x)
         (filter
            (fun c => negb (existsb (char_eqb c) ExtractLyrics.INVALID_CHARS))
            name)).
Proof.
  unfold ExtractLyrics.sanitize_filename, re_sub_class.
  rewrite replace_char_by_char.
  change 100%Z with (Z.of_nat 100). apply slice_first.
Qed.

Lemma sanitize_filename_chars (name : str) (c : char) :
  In c (ExtractLyrics.sanitize_filename name) ->
  c <> SPACE /\ ~ In c ExtractLyrics.INVALID_CHARS.
Proof.
  rewrite sanitize_filename_eq. intros H.
  apply in_firstn, in_map_iff in H. destruct H as (x & E & H).
  apply filter_In in H. destruct H as [_ Hx].
  destruct (char_eqb x SPACE) eqn:S.
  - subst c. split; [discriminate|]. vm_compute. intuition discriminate.
  - subst c. split.
    + intros ->. vm_compute in S. discriminate.
    + intros Hin. apply negb_true_iff in Hx.
      assert (existsb (char_eqb x) ExtractLyrics.INVALID_CHARS = true)
        as Hex; [|congruence].
      apply existsb_exists. exists x. split; [exact Hin|].
      now apply char_eqb_eq.
Qed.

End FileNames.

(** C10. For every input string, [sanitize_filename] returns a string of
    length at most 100 that holds no space and none of the characters
    less-than, greater-than, colon, double quote, slash, backslash, bar,
    question mark and star. *)
Theorem sanitize_filename_safe (name : str) :
  (len (ExtractLyrics.sanitize_filename name) <= 100)%Z
  /\ ~ In SPACE (ExtractLyrics.sanitize_filename name)
  /\ Forall (fun c => ~ In c (ExtractLyrics.sanitize_filename name))
       [LESS; GREATER; COLON; QUOTE; SLASH; BACKSLASH; BAR; QUESTION; STAR].
Proof.
  split; [|split].
  - rewrite sanitize_filename_eq. unfold len.
    pose proof (firstn_le_length 100
      (map (fun x => if char_eqb x SPACE then UNDERSCORE else x)
         (filter
            (fun c => negb (existsb (char_eqb c) ExtractLyrics.INVALID_CHARS))
            name))).
    lia.
  - intros H. now apply sanitize_filename_chars in H.
  - apply Forall_forall. intros c Hc Hin.
    apply sanitize_filename_chars in Hin. now destruct Hin.
Qed.

(** * Further properties of the scripts *)

(** ** Stripping *)

Section Strip.

Lemma lstrip_split (s : str) :
  exists pre,
    s = pre ++ lstrip s
    /\ Forall (fun c => isspace c = true) pre
    /\ (forall c rest, lstrip s = c :: rest -> isspace c = false).
Proof.
  induction s as [|x s (pre & E & Hpre & Hhd)]; simpl.
  - exists []. repeat split; [constructor | discriminate].
  - destruct (isspace x) eqn:Sx.
    + exists (x :: pre). repeat split.
      * simpl. now rewrite <- E.
      * now constructor.
      * exact Hhd.
    + exists []. repeat split; [constructor|].
      now intros c rest [= <- _].
Qed.

Lemma lstrip_fixed (s : str) :
  (forall c rest, s = c :: rest -> isspace c = false) -> lstrip s = s.
Proof.
  destruct s as [|c s]; [reflexivity|].
  intros H. simpl. now rewrite (H c s eq_refl).
Qed.

Lemma lstrip_idem (s : str) : lstrip (lstrip s) = lstrip s.
Proof.
  destruct (lstrip_split s) as (_ & _ & _ & H). now apply lstrip_fixed.
Qed.

Lemma lstrip_nil_iff (s : str) :
  lstrip s = [] <-> Forall (fun c => isspace c = true) s.
Proof.
  induction s as [|x s IH]; simpl.
  - split; [constructor | reflexivity].
  - destruct (isspace x) eqn:Sx.
    + rewrite IH. split; [now constructor | now inversion 1].
    + split; [discriminate | inversion 1; congruence].
Qed.

Lemma lstrip_app (s t : str) : lstrip s <> [] -> lstrip (s ++ t) = lstrip s ++ t.
Proof.
  induction s as [|x s IH]; simpl; [congruence|].
  destruct (isspace x); [exact IH | reflexivity].
Qed.

Lemma in_lstrip (s : str) (c : char) : In c (lstrip s) -> In c s.
Proof.
  destruct (lstrip_split s) as (pre & E & _). intros H.
  rewrite E. apply in_or_app. now right.
Qed.

Lemma rstrip_split (s : str) :
  exists post,
    s = rstrip s ++ post /\ Forall (fun c => isspace c = true) post.
Proof.
  unfold rstrip. destruct (lstrip_split (rev s)) as (pre & E & Hpre & _).
  exists (rev pre). split; [|now apply Forall_rev].
  rewrite <- rev_app_distr, <- E. now rewrite rev_involutive.
Qed.

Lemma rstrip_idem (s : str) : rstrip (rstrip s) = rstrip s.
Proof.
  unfold rstrip. now rewrite rev_involutive, lstrip_idem.
Qed.

(** What is left of a string that starts with no space still starts with
    no space once its end is stripped. *)
Lemma lstrip_rstrip (s : str) : lstrip s = s -> lstrip (rstrip s) = rstrip s.
Proof.
  intros Hs. apply lstrip_fixed. intros c rest E.
  destruct (rstrip_split s) as (post & Es & _).
  rewrite E in Es.
  destruct (lstrip_split s) as (_ & _ & _ & Hhd).
  apply (Hhd c (rest ++ post)). now rewrite Hs.
Qed.

Lemma strip_idem (s : str) : strip (strip s) = strip s.
Proof.
  unfold strip.
  rewrite (@lstrip_rstrip (lstrip s)) by apply lstrip_idem.
  apply rstrip_idem.
Qed.

Lemma in_strip (s : str) (c : char) : In c (strip s) -> In c s.
Proof.
  unfold strip. intros H. apply in_lstrip.
  destruct (rstrip_split (lstrip s)) as (post & E & _).
  rewrite E. apply in_or_app. now left.
Qed.

Lemma strip_nil_iff (s : str) :
  strip s = [] <-> Forall (fun c => isspace c = true) s.
Proof.
  rewrite <- lstrip_nil_iff. unfold strip, rstrip. split.
  - intros H.
    assert (lstrip (rev (lstrip s)) = []) as H'.
    { apply (f_equal (@rev char)) in H. now rewrite rev_involutive in H. }
    apply lstrip_nil_iff, Forall_rev in H'. rewrite rev_involutive in H'.
    apply lstrip_nil_iff in H'. now rewrite lstrip_idem in H'.
  - intros ->. reflexivity.
Qed.

(** A stripped string has no space at either end. *)
Lemma strip_ends (s : str) :
  lstrip (strip s) = strip s /\ lstrip (rev (strip s)) = rev (strip s).
Proof.
  split.
  - unfold strip. apply lstrip_rstrip, lstrip_idem.
  - unfold strip, rstrip. now rewrite rev_involutive, lstrip_idem.
Qed.

Lemma strip_fixed (s : str) :
  lstrip s = s -> lstrip (rev s) = rev s -> strip s = s.
Proof.
  intros Hl Hr. unfold strip, rstrip. now rewrite Hl, Hr, rev_involutive.
Qed.

End Strip.

(** ** The sections of the web backend *)

Section WebSections.

Lemma web_sections_loop (lines : list str) :
  forall (sections : list (list str)) (current : list str),
    fold_left Webapp.sections_step lines
      (map (map Cli.clean_punctuation) sections,
       map Cli.clean_punctuation current)
    = (map (map Cli.clean_punctuation)
         (fst (fold_left Cli.sections_step lines (sections, current))),
       map Cli.clean_punctuation
         (snd (fold_left Cli.sections_step lines (sections, current)))).
Proof.
  induction lines as [|line lines IH]; intros sections current.
  - reflexivity.
  - cbn [fold_left]. unfold Webapp.sections_step at 2, Cli.sections_step at 2 4.
    destruct (Cli.is_blank line).
    + destruct current as [|c current]; cbn [map].
      * apply (IH sections []).
      * rewrite <- (IH (sections ++ [c :: current]) []).
        now rewrite map_app.
    + rewrite <- (IH sections (current ++ [line])).
      now rewrite map_app.
Qed.

Lemma web_sections_eq (lines : list str) :
  Webapp.split_into_sections lines
  = map (map Cli.clean_punctuation) (Cli.split_into_sections lines).
Proof.
  unfold Webapp.split_into_sections, Cli.split_into_sections.
  pose proof (web_sections_loop lines [] []) as E. cbn [map] in E.
  rewrite E. clear E.
  destruct (fold_left Cli.sections_step lines ([], [])) as [sections current].
  simpl. destruct current; simpl; [reflexivity|].
  now rewrite map_app.
Qed.

End WebSections.

(** X1. The web backend groups the lines exactly as the command-line
    script does, by the blank lines of the input, and cleans each line it
    keeps: its sections are the sections of the command-line script with
    commas and periods removed from every line. *)
Theorem web_split_into_sections_cleans (lines : list str) :
  Webapp.split_into_sections lines
  = map (map Webapp.clean_punctuation) (Cli.split_into_sections lines).
Proof.
  apply web_sections_eq.
Qed.

(** ** The column split at its bounds *)

Section Columns.

Open Scope Z_scope.

(** For one column or more, the columns are the consecutive chunks of the
    width [ceil (len lines / k)]. *)
Lemma split_into_columns_chunks (A : Type) (lines : list A) (k : Z) :
  1 <= k ->
  Cli.split_into_columns lines k
  = Some (map (fun i =>
                 firstn (Z.to_nat ((len lines + k - 1) / k))
                   (skipn (i * Z.to_nat ((len lines + k - 1) / k)) lines))
            (seq 0 (Z.to_nat k))).
Proof.
  intros Hk. unfold Cli.split_into_columns.
  destruct (Z.eqb_spec k 0) as [E|_]; [lia|].
  destruct (lines_per_col_covers (n := len lines) (k := k)) as [Hw _];
    [unfold len; lia | assumption |].
  cbv zeta. f_equal.
  rewrite <- (columns_loop lines (Z.to_nat k)
                (Z.to_nat ((len lines + k - 1) / k))).
  rewrite !Z2Nat.id by lia. reflexivity.
Qed.

Lemma split_into_columns_sizes (A : Type) (lines : list A) (k : Z)
    (cols : list (list A)) :
  1 <= k ->
  Cli.split_into_columns lines k = Some cols ->
  Forall (fun col => len col <= (len lines + k - 1) / k) cols.
Proof.
  intros Hk E. rewrite split_into_columns_chunks in E by assumption.
  injection E as <-.
  destruct (lines_per_col_covers (n := len lines) (k := k)) as [Hw _];
    [unfold len; lia | assumption |].
  apply Forall_forall. intros col Hin.
  apply in_map_iff in Hin. destruct Hin as (i & <- & _).
  unfold len at 1.
  pose proof (firstn_le_length (Z.to_nat ((len lines + k - 1) / k))
                (skipn (i * Z.to_nat ((len lines + k - 1) / k)) lines)).
  lia.
Qed.

End Columns.

(** X2. [split_into_columns] raises [ZeroDivisionError] exactly when asked
    for zero columns, and for a negative count it returns no column at
    all, whatever the lines. *)
Theorem split_into_columns_no_positive_count (A : Type) (lines : list A) (k : Z) :
  (Cli.split_into_columns lines k = None <-> k = 0%Z)
  /\ ((k < 0)%Z -> Cli.split_into_columns lines k = Some []).
Proof.
  unfold Cli.split_into_columns.
  destruct (Z.eqb_spec k 0) as [E|E].
  - split; [tauto | lia].
  - split; [split; [discriminate | contradiction]|].
    intros Hk. unfold range.
    replace (Z.to_nat k) with 0%nat by lia. reflexivity.
Qed.

Lemma split_into_columns_no_positive_count_witness :
  (-2 < 0)%Z /\ Cli.split_into_columns [1; 2; 3]%Z (-2) = Some [].
Proof.
  split; [lia|].
  apply (proj2 (split_into_columns_no_positive_count [1; 2; 3]%Z (-2))). lia.
Defined.

(** X3. With [k >= 1] columns, no column holds more than
    [(len(lines) + k - 1) // k] lines. *)
Theorem split_into_columns_width (A : Type) (lines : list A) (k : Z)
    (cols : list (list A)) :
  (1 <= k)%Z ->
  Cli.split_into_columns lines k = Some cols ->
  Forall (fun col => (len col <= (len lines + k - 1) / k)%Z) cols.
Proof.
  apply split_into_columns_sizes.
Qed.

Lemma split_into_columns_width_witness :
  (1 <= 3)%Z
  /\ Cli.split_into_columns [1; 2; 3; 4; 5; 6; 7]%Z 3
     = Some [[1; 2; 3]; [4; 5; 6]; [7]]%Z
  /\ Forall (fun col => (len col <= (len [1; 2; 3; 4; 5; 6; 7]%Z + 3 - 1) / 3)%Z)
       [[1; 2; 3]; [4; 5; 6]; [7]]%Z.
Proof.
  split; [lia|]. split; [reflexivity|].
  apply (@split_into_columns_width Z [1; 2; 3; 4; 5; 6; 7]%Z 3);
    [lia | reflexivity].
Defined.

(** ** From the lyric lines to the columns of a slide *)

Section Slides.

Lemma length_join_sections (blocks : list (list (str * RGBColor))) :
  length (join_sections blocks)
  = (length (concat blocks) + pred (length blocks))%nat.
Proof.
  induction blocks as [|block rest IH]; [reflexivity|].
  destruct rest as [|next rest].
  - simpl. rewrite app_nil_r. lia.
  - change (join_sections (block :: next :: rest))
      with (block ++ separator :: join_sections (next :: rest)).
    rewrite length_app. cbn [length].
    rewrite IH. cbn [concat length]. rewrite !length_app. lia.
Qed.

Lemma length_colored_blocks (sections : list (list str)) :
  forall from,
    length (colored_blocks from sections) = length sections
    /\ length (concat (colored_blocks from sections))
       = length (concat sections).
Proof.
  unfold colored_blocks, numbered.
  induction sections as [|section rest IH]; intros from; [split; reflexivity|].
  cbn [length seq combine map concat fst snd].
  destruct (IH (S from)) as [E1 E2].
  rewrite !length_app, E1, E2. unfold colored_section.
  now rewrite length_map.
Qed.

(** Each section costs its lines and, but for the first, one separator:
    never more than the lines read. *)
Lemma runs_budget (lines : list str) :
  forall current,
    (length (concat (runs current lines)) + length (runs current lines)
     <= length current + length lines + 1)%nat.
Proof.
  induction lines as [|line rest IH]; intros current; cbn [runs].
  - destruct current; simpl; rewrite ?app_nil_r; lia.
  - destruct (Cli.is_blank line).
    + destruct current as [|c current].
      * specialize (IH []). simpl in *. lia.
      * specialize (IH []). cbn [concat length] in *.
        rewrite length_app. cbn [length]. lia.
    + specialize (IH (current ++ [line])).
      rewrite length_app in IH. simpl in *. lia.
Qed.

Lemma colored_count (sections : list (list str)) :
  length (join_sections (colored_blocks 0 sections))
  = (length (concat sections) + pred (length sections))%nat.
Proof.
  rewrite length_join_sections.
  destruct (length_colored_blocks sections 0) as [-> ->]. reflexivity.
Qed.

Lemma cli_colored_le (lines : list str) :
  (length (join_sections (colored_blocks 0 (Cli.split_into_sections lines)))
   <= length lines)%nat.
Proof.
  rewrite colored_count, split_into_sections_runs.
  pose proof (runs_budget lines []) as B. simpl in B.
  destruct (runs [] lines); simpl in *; lia.
Qed.

Lemma web_colored_le (lines : list str) :
  (length (join_sections (colored_blocks 0 (Webapp.split_into_sections lines)))
   <= length lines)%nat.
Proof.
  rewrite colored_count, web_sections_eq, length_map.
  assert (length (concat (map (map Cli.clean_punctuation)
                            (Cli.split_into_sections lines)))
          = length (concat (Cli.split_into_sections lines))) as ->.
  { induction (Cli.split_into_sections lines) as [|s ss IH]; [reflexivity|].
    simpl. now rewrite !length_app, length_map, IH. }
  pose proof (cli_colored_le lines) as B.
  now rewrite colored_count in B.
Qed.

Lemma cli_columns_positive (A : Type) (lines : list A) :
  (1 <= columns (Cli.get_optimal_layout lines))%Z.
Proof. layout_cases; lia. Qed.

Lemma web_columns_positive (A : Type) (lines : list A) :
  (1 <= columns (Webapp.get_optimal_layout lines))%Z.
Proof. layout_cases; lia. Qed.

End Slides.

(** X4. The lines of [add_lyrics_slide] that compute the layout (the
    flag, the layout, the sections, their colours and the columns) never
    fail: the sections always get their colours, the line count always
    gives one column or more, and the columns, as many as the layout
    says, hold exactly the coloured lines, in order.  The coloured lines are never
    more than the lyric lines the layout was chosen for. *)
Theorem add_lyrics_slide_layout_total (title : str) (lyrics_lines : list str) :
  exists colored_lines cols,
    Cli.assign_section_colors (Cli.split_into_sections lyrics_lines)
    = Some colored_lines
    /\ Cli.add_lyrics_slide_layout title lyrics_lines
       = Some (Cli.is_hebrew_song title lyrics_lines,
               font_size (Cli.get_optimal_layout lyrics_lines), cols)
    /\ len cols = columns (Cli.get_optimal_layout lyrics_lines)
    /\ concat cols = colored_lines
    /\ (len colored_lines <= len lyrics_lines)%Z.
Proof.
  unfold Cli.add_lyrics_slide_layout.
  rewrite assign_section_colors_spec.
  destruct (split_into_columns_spec
              (join_sections
                 (colored_blocks 0 (Cli.split_into_sections lyrics_lines)))
              (cli_columns_positive lyrics_lines)) as (cols & E & Hn & Hc).
  eexists; exists cols. rewrite E.
  repeat split; try assumption.
  unfold len. apply inj_le, cli_colored_le.
Qed.

(** X5. The breakpoints of the command-line script keep the columns
    short: a song of at most 56 lyric lines never has more than 15 lines
    in a column, and a song of at most 72 never more than 18. *)
Theorem add_lyrics_slide_column_capacity
    (title : str) (lyrics_lines : list str)
    (is_rtl : bool) (size : Z) (cols : list (list (str * RGBColor))) :
  Cli.add_lyrics_slide_layout title lyrics_lines = Some (is_rtl, size, cols) ->
  ((len lyrics_lines <= 56)%Z -> Forall (fun col => (len col <= 15)%Z) cols)
  /\ ((len lyrics_lines <= 72)%Z -> Forall (fun col => (len col <= 18)%Z) cols).
Proof.
  unfold Cli.add_lyrics_slide_layout.
  rewrite assign_section_colors_spec.
  pose proof (cli_colored_le lyrics_lines) as Hm. apply inj_le in Hm.
  fold (len (join_sections
               (colored_blocks 0 (Cli.split_into_sections lyrics_lines)))) in Hm.
  fold (len lyrics_lines) in Hm.
  set (colored := join_sections _) in *.
  destruct (Cli.split_into_columns colored
              (columns (Cli.get_optimal_layout lyrics_lines))) as [cs|] eqn:E;
    [|discriminate].
  intros [= _ _ <-].
  pose proof (split_into_columns_sizes colored
                (cli_columns_positive lyrics_lines) E) as Hw.
  assert (0 <= len colored)%Z as H0 by (unfold len; lia).
  split; intros Hn; eapply Forall_impl; try exact Hw;
    intros col Hcol; cbv beta in Hcol;
    (eapply Z.le_trans; [exact Hcol|]);
    apply Z.lt_succ_r, Z.div_lt_upper_bound;
    revert Hn; layout_cases; lia.
Qed.

Lemma add_lyrics_slide_column_capacity_witness :
  Cli.add_lyrics_slide_layout [0x61%N] (repeat [0x61%N] 20)
  = Some (false, 18%Z,
          [ map (fun line => (line, mkRGB 240 240 255)) (repeat [0x61%N] 10);
            map (fun line => (line, mkRGB 240 240 255)) (repeat [0x61%N] 10) ])
  /\ Forall (fun col => (len col <= 15)%Z)
       [ map (fun line => (line, mkRGB 240 240 255)) (repeat [0x61%N] 10);
         map (fun line => (line, mkRGB 240 240 255)) (repeat [0x61%N] 10) ].
Proof.
  split; [reflexivity|].
  apply (proj1 (@add_lyrics_slide_column_capacity
                  [0x61%N] (repeat [0x61%N] 20) false 18%Z _ eq_refl)).
  vm_compute. discriminate.
Defined.

(** X6. The lines of [generate_pptx] that compute the layout (the flag,
    the sections, their colours, the layout and the columns) never fail
    either: the columns, as many as the layout of the coloured lines says, hold
    exactly the coloured lines, which are never more than the lyric lines;
    and up to 56 coloured lines no column has more than 15 lines. *)
Theorem generate_pptx_layout_total (title : str) (lyrics_lines : list str) :
  exists colored_lines cols,
    Webapp.generate_pptx_colored_lines (Webapp.split_into_sections lyrics_lines)
    = Some colored_lines
    /\ Webapp.generate_pptx_layout title lyrics_lines
       = Some (Webapp.is_hebrew title,
               font_size (Webapp.get_optimal_layout colored_lines), cols)
    /\ len cols = columns (Webapp.get_optimal_layout colored_lines)
    /\ concat cols = colored_lines
    /\ (len colored_lines <= len lyrics_lines)%Z
    /\ ((len colored_lines <= 56)%Z ->
        Forall (fun col => (len col <= 15)%Z) cols).
Proof.
  unfold Webapp.generate_pptx_layout.
  change Webapp.generate_pptx_colored_lines with Cli.assign_section_colors.
  rewrite assign_section_colors_spec.
  set (colored := join_sections _).
  destruct (split_into_columns_spec colored (web_columns_positive colored))
    as (cols & E & Hn & Hc).
  exists colored, cols.
  change (Webapp.generate_pptx_columns colored)
    with (Cli.split_into_columns colored
            (columns (Webapp.get_optimal_layout colored))).
  rewrite E. repeat split; try assumption.
  - unfold len. apply inj_le, web_colored_le.
  - intros Hm.
    pose proof (split_into_columns_sizes colored
                  (web_columns_positive colored) E) as Hw.
    assert (0 <= len colored)%Z as H0 by (unfold len; lia).
    eapply Forall_impl; try exact Hw.
    intros col Hcol; cbv beta in Hcol.
    eapply Z.le_trans; [exact Hcol|].
    apply Z.lt_succ_r, Z.div_lt_upper_bound;
      revert Hm; layout_cases; lia.
Qed.

(** ** The right-to-left flag *)

(** X7. [is_hebrew_song] looks at the title and at the first five lyric
    lines only: the lines after the fifth never change the flag, and a
    song of fewer than two lines is right-to-left exactly when its title
    is Hebrew. *)
Theorem is_hebrew_song_first_five (title : str) (lyrics_lines : list str) :
  Cli.is_hebrew_song title lyrics_lines
  = Cli.is_hebrew_song title (firstn 5 lyrics_lines)
  /\ ((length lyrics_lines < 2)%nat ->
      Cli.is_hebrew_song title lyrics_lines = Cli.is_hebrew title).
Proof.
  rewrite !is_hebrew_song_flags. unfold rtl_of_flags. split.
  - now rewrite !firstn_map, firstn_firstn.
  - intros H.
    destruct lyrics_lines as [|l1 [|l2 rest]]; simpl in H; try lia.
    + simpl. now rewrite orb_false_r.
    + simpl. destruct (Cli.is_hebrew l1); simpl; now rewrite orb_false_r.
Qed.

Lemma is_hebrew_song_first_five_witness :
  (length [[0x5D0%N]] < 2)%nat
  /\ Cli.is_hebrew_song [0x61%N] [[0x5D0%N]] = Cli.is_hebrew [0x61%N].
Proof.
  split; [simpl; lia|].
  apply (proj2 (is_hebrew_song_first_five [0x61%N] [[0x5D0%N]])). simpl; lia.
Defined.

(** Cleaning takes no Hebrew character away and brings none. *)
Lemma is_hebrew_filter_kept (t : str) :
  Cli.is_hebrew (filter kept t) = Cli.is_hebrew t.
Proof.
  induction t as [|x t IH]; [reflexivity|].
  simpl. destruct (kept x) eqn:K; simpl; rewrite IH; [reflexivity|].
  destruct (N.leb_spec 0x0590 x) as [L|L]; [|reflexivity].
  destruct (N.leb_spec x 0x05FF) as [U|U]; [|reflexivity].
  unfold kept, char_eqb, COMMA, PERIOD in K.
  destruct (N.eqb_spec x 0x2C); [lia|].
  destruct (N.eqb_spec x 0x2E); [lia|]. discriminate.
Qed.

(** X8. Removing commas and periods never changes whether a text is
    Hebrew. *)
Theorem clean_punctuation_keeps_script (t : str) :
  Cli.is_hebrew (Cli.clean_punctuation t) = Cli.is_hebrew t.
Proof.
  rewrite clean_punctuation_filter. apply is_hebrew_filter_kept.
Qed.

(** ** File names again *)

Section SafeNames.

Lemma filter_all (A : Type) (p : A -> bool) (l : list A) :
  (forall x, In x l -> p x = true) -> filter p l = l.
Proof.
  induction l as [|x l IH]; intros H; [reflexivity|].
  simpl. rewrite (H x) by now left.
  rewrite IH; [reflexivity|]. intros y Hy. apply H. now right.
Qed.

Lemma sanitize_safe_name (name : str) :
  safe_name name -> ExtractLyrics.sanitize_filename name = name.
Proof.
  intros (Hlen & Hsp & Hinv). rewrite sanitize_filename_eq.
  rewrite filter_all.
  - rewrite (map_ext_in _ (fun x => x)), map_id.
    + apply firstn_all2. unfold len in Hlen. lia.
    + intros x Hx. destruct (char_eqb x SPACE) eqn:E; [|reflexivity].
      apply char_eqb_eq in E. subst x. contradiction.
  - intros x Hx. apply negb_true_iff.
    destruct (existsb (char_eqb x) ExtractLyrics.INVALID_CHARS) eqn:E;
      [|reflexivity].
    apply existsb_exists in E. destruct E as (y & Hy & Exy).
    apply char_eqb_eq in Exy. subst y. now elim (Hinv x Hy).
Qed.

Lemma sanitize_is_safe (name : str) :
  safe_name (ExtractLyrics.sanitize_filename name).
Proof.
  split; [|split].
  - rewrite sanitize_filename_eq. unfold len.
    pose proof (firstn_le_length 100
      (map (fun x => if char_eqb x SPACE then UNDERSCORE else x)
         (filter
            (fun c => negb (existsb (char_eqb c) ExtractLyrics.INVALID_CHARS))
            name))).
    lia.
  - intros H. now apply sanitize_filename_chars in H.
  - intros c Hc Hin. apply sanitize_filename_chars in Hin. now destruct Hin.
Qed.

End SafeNames.

(** X9. [sanitize_filename] is idempotent, and the names it returns
    unchanged are exactly those of at most 100 characters that hold no
    space and no invalid character. *)
Theorem sanitize_filename_idempotent (name : str) :
  ExtractLyrics.sanitize_filename (ExtractLyrics.sanitize_filename name)
  = ExtractLyrics.sanitize_filename name
  /\ (ExtractLyrics.sanitize_filename name = name <-> safe_name name).
Proof.
  split; [apply sanitize_safe_name, sanitize_is_safe|].
  split; [|apply sanitize_safe_name].
  intros E. rewrite <- E. apply sanitize_is_safe.
Qed.

(** ** The title of a lyrics file *)

Section Titles.

Lemma slice_from_2 (A : Type) (l : list A) : slice_from l 2 = skipn 2 l.
Proof.
  unfold slice_from, slice_bound, len.
  change (2 <? 0)%Z with false. cbv iota.
  destruct (Nat.le_gt_cases 2 (length l)) as [H|H].
  - replace (Z.to_nat (Z.min 2 (Z.of_nat (length l)))) with 2%nat by lia.
    reflexivity.
  - replace (Z.to_nat (Z.min 2 (Z.of_nat (length l)))) with (length l) by lia.
    now rewrite skipn_all, skipn_all2 by lia.
Qed.

Lemma last_cons (A : Type) (l : list A) :
  forall x d, last (x :: l) d = last l x.
Proof.
  induction l as [|y l IH]; intros x d; [reflexivity|].
  change (last (x :: y :: l) d) with (last (y :: l) d).
  now rewrite !IH.
Qed.

Lemma parse_loop_title (lines : list str) :
  forall (title : str) (acc : list str) (found : bool),
    fst (fst (fold_left Cli.parse_step lines (title, acc, found)))
    = last (map title_of (filter is_title_line lines)) title.
Proof.
  induction lines as [|line lines IH]; intros title acc found.
  - reflexivity.
  - cbn [fold_left filter]. rewrite parse_step_eq.
    destruct (is_title_line line); cbn [map].
    + rewrite IH, last_cons, slice_from_2. reflexivity.
    + apply IH.
Qed.

Lemma parse_lyrics_file_eq (stem content : str) :
  Cli.parse_lyrics_file stem content
  = (last (map title_of (filter is_title_line (file_lines content)))
       (replace [UNDERSCORE] [SPACE] stem),
     Cli.pop_trailing_blank
       (Cli.pop_leading_blank (collected (file_lines content)))).
Proof.
  unfold Cli.parse_lyrics_file. fold (file_lines content).
  pose proof (parse_loop (file_lines content)
                (replace [UNDERSCORE] [SPACE] stem) [] false) as El.
  pose proof (parse_loop_title (file_lines content)
                (replace [UNDERSCORE] [SPACE] stem) [] false) as Et.
  destruct (fold_left Cli.parse_step (file_lines content)
              (replace [UNDERSCORE] [SPACE] stem, [], false))
    as [[title lyrics] found].
  simpl in El, Et. now subst.
Qed.

(** Splitting at a separator goes through a first piece that does not
    hold the separator. *)
Lemma split_first_piece (sep : char) (piece rest : str) :
  ~ In sep piece ->
  split sep (piece ++ sep :: rest) = piece :: split sep rest.
Proof.
  induction piece as [|c piece IH]; intros H; simpl.
  - unfold char_eqb. now rewrite N.eqb_refl.
  - destruct (char_eqb c sep) eqn:E.
    + apply char_eqb_eq in E. subst c. elim H. now left.
    + rewrite IH; [reflexivity|]. intros Hin. apply H. now right.
Qed.

Lemma rstrip_after (head tail : str) :
  strip tail <> [] -> rstrip (head ++ tail) = head ++ rstrip tail.
Proof.
  intros H. unfold rstrip. rewrite rev_app_distr, lstrip_app.
  - now rewrite rev_app_distr, rev_involutive.
  - intros E. apply H. apply strip_nil_iff.
    apply lstrip_nil_iff, Forall_rev in E. now rewrite rev_involutive in E.
Qed.

Lemma file_lines_written (name lyrics : str) :
  ~ In NEWLINE name ->
  strip lyrics <> [] ->
  file_lines (ExtractLyrics.lyrics_file_content name lyrics)
  = (HASH :: SPACE :: name) :: [] :: split NEWLINE (rstrip lyrics).
Proof.
  intros Hname Hlyrics. unfold file_lines, ExtractLyrics.lyrics_file_content.
  change (lit "# ") with [HASH; SPACE].
  unfold strip.
  change (lstrip (([HASH; SPACE] ++ name ++ [NEWLINE; NEWLINE]) ++ lyrics))
    with (([HASH; SPACE] ++ name ++ [NEWLINE; NEWLINE]) ++ lyrics).
  rewrite rstrip_after by assumption.
  change (([HASH; SPACE] ++ name ++ [NEWLINE; NEWLINE]) ++ rstrip lyrics)
    with (HASH :: SPACE :: (name ++ [NEWLINE; NEWLINE]) ++ rstrip lyrics).
  rewrite <- app_assoc.
  change (HASH :: SPACE :: name ++ [NEWLINE; NEWLINE] ++ rstrip lyrics)
    with ((HASH :: SPACE :: name) ++ NEWLINE :: NEWLINE :: rstrip lyrics).
  rewrite split_first_piece.
  - pose proof (@split_first_piece NEWLINE [] (rstrip lyrics) (fun H => H))
      as E.
    cbn [app] in E. now rewrite E.
  - intros [H|[H|H]]; [discriminate H | discriminate H | contradiction].
Qed.

End Titles.

(** X10. The title [parse_lyrics_file] returns comes from the last line
    of the file that starts with a hash and a space: it is what follows
    these two characters, stripped.  A file with no such line gets the
    stem of its name, with underscores turned into spaces. *)
Theorem parse_lyrics_file_title (stem content : str) :
  fst (Cli.parse_lyrics_file stem content)
  = last
      (map (fun line => strip (skipn 2 line))
         (filter (startswith [HASH; SPACE]) (split NEWLINE (strip content))))
      (replace [UNDERSCORE] [SPACE] stem).
Proof.
  rewrite parse_lyrics_file_eq. reflexivity.
Qed.

Lemma read_text_plain (data : str) :
  ~ In CARRIAGE_RETURN data -> read_text data = data.
Proof.
  induction data as [|c data IH]; intros H; [reflexivity|].
  cbn [read_text]. destruct (char_eqb c CARRIAGE_RETURN) eqn:E.
  - apply char_eqb_eq in E. subst c. elim H. now left.
  - rewrite IH; [reflexivity|]. intros Hin. apply H. now right.
Qed.

(** X11. A lyrics file as [extract_lyrics.py] writes it is read back by
    [parse_lyrics_file] with the name of the song, stripped, as its
    title, and with the lyrics as its lines, cleaned and without the
    blank lines at both ends.  This holds when neither the name nor the
    lyrics hold a carriage return (reading in text mode would turn it
    into a newline), the name holds no newline, the lyrics hold a
    character that is not white space, and no line of the lyrics starts
    with a hash and a space. *)
Theorem lyrics_file_round_trip (stem name lyrics : str) :
  ~ In CARRIAGE_RETURN name ->
  ~ In CARRIAGE_RETURN lyrics ->
  ~ In NEWLINE name ->
  strip lyrics <> [] ->
  Forall (fun line => startswith [HASH; SPACE] line = false)
    (split NEWLINE (rstrip lyrics)) ->
  Cli.parse_lyrics_file stem
    (read_text (ExtractLyrics.lyrics_file_content name lyrics))
  = (strip name,
     Cli.pop_trailing_blank
       (Cli.pop_leading_blank
          (map Cli.clean_punctuation (split NEWLINE (rstrip lyrics))))).
Proof.
  intros Hcr1 Hcr2 Hname Hlyrics Hlines.
  rewrite read_text_plain.
  2:{ unfold ExtractLyrics.lyrics_file_content.
      change (lit "# ") with [HASH; SPACE].
      rewrite !in_app_iff. cbn [In]. intuition discriminate. }
  rewrite parse_lyrics_file_eq, file_lines_written by assumption.
  assert (filter is_title_line (split NEWLINE (rstrip lyrics)) = []) as Ht.
  { induction Hlines as [|line lines Hl _ IH]; [reflexivity|].
    simpl. unfold is_title_line at 1. now rewrite Hl. }
  assert (filter (fun line => negb (is_title_line line))
            (split NEWLINE (rstrip lyrics))
          = split NEWLINE (rstrip lyrics)) as Hk.
  { apply filter_all. intros line Hin.
    rewrite Forall_forall in Hlines. unfold is_title_line.
    now rewrite (Hlines line Hin). }
  f_equal.
  - cbn [filter]. change (is_title_line (HASH :: SPACE :: name)) with true.
    change (is_title_line []) with false. cbv iota. rewrite Ht. reflexivity.
  - unfold collected. cbn [filter].
    change (is_title_line (HASH :: SPACE :: name)) with true.
    change (is_title_line []) with false. cbn [negb]. cbv iota.
    rewrite Hk. reflexivity.
Qed.

Lemma lyrics_file_round_trip_witness :
  Cli.parse_lyrics_file [0x78%N]
    (read_text
       (ExtractLyrics.lyrics_file_content
          [0x4D; 0x79; SPACE]%N
          [0x61; COMMA; NEWLINE; NEWLINE; 0x62; NEWLINE]%N))
  = ([0x4D; 0x79]%N, [[0x61]; []; [0x62]]%N).
Proof.
  apply (@lyrics_file_round_trip [0x78%N]
           [0x4D; 0x79; SPACE]%N
           [0x61; COMMA; NEWLINE; NEWLINE; 0x62; NEWLINE]%N).
  - vm_compute. intuition discriminate.
  - vm_compute. intuition discriminate.
  - vm_compute. intuition discriminate.
  - vm_compute. discriminate.
  - vm_compute. repeat constructor.
Defined.

(** ** The table of songs *)

Section SongTable.

Lemma split_pieces (sep : char) (s : str) :
  split sep s <> []
  /\ Forall (fun piece => ~ In sep piece) (split sep s).
Proof.
  induction s as [|c s [Hne IH]]; simpl.
  - split; [discriminate | repeat constructor; intros []].
  - destruct (char_eqb c sep) eqn:E.
    + split; [discriminate | constructor; [intros [] | exact IH]].
    + destruct (split sep s) as [|w ws]; [now elim Hne|].
      split; [discriminate|].
      inversion IH as [|? ? Hw Hws]; subst.
      constructor; [|exact Hws].
      intros [->|Hin]; [|now apply Hw].
      unfold char_eqb in E. now rewrite N.eqb_refl in E.
Qed.

Lemma stripped_piece (line part : str) :
  In part (map strip (split BAR line)) ->
  strip part = part /\ ~ In BAR part.
Proof.
  intros H. apply in_map_iff in H. destruct H as (piece & <- & Hin).
  split; [apply strip_idem|].
  intros Hbar. apply in_strip in Hbar.
  destruct (split_pieces BAR line) as [_ Hp].
  rewrite Forall_forall in Hp. exact (Hp piece Hin Hbar).
Qed.

Lemma table_step_cases (songs : list ExtractLyrics.Song) (line : str) :
  ExtractLyrics.table_step songs line = songs
  \/ exists song,
       ExtractLyrics.table_step songs line = songs ++ [song]
       /\ good_song song.
Proof.
  unfold ExtractLyrics.table_step.
  destruct (negb (startswith [BAR] line)
            || contains_str (lit "---") line
            || contains_str (lit "Song Name") line); [now left|].
  cbv zeta.
  pose proof (stripped_piece line) as Hp.
  destruct (map strip (split BAR line)) as [|p0 [|index [|name [|url rest]]]];
    try now left.
  destruct (match url with [] => false | _ :: _ => true end
            && startswith (lit "http") url) eqn:E; [|now left].
  right. exists (ExtractLyrics.mkSong index name url).
  split; [reflexivity|].
  apply andb_true_iff in E. destruct E as [_ E].
  destruct (Hp index) as [Hi1 Hi2]; [simpl; tauto|].
  destruct (Hp name) as [Hn1 Hn2]; [simpl; tauto|].
  destruct (Hp url) as [Hu1 Hu2]; [simpl; tauto|].
  unfold good_song. simpl. tauto.
Qed.

Lemma table_loop (lines : list str) :
  forall songs,
    Forall good_song songs ->
    Forall good_song (fold_left ExtractLyrics.table_step lines songs)
    /\ (length (fold_left ExtractLyrics.table_step lines songs)
        <= length songs + length lines)%nat.
Proof.
  induction lines as [|line lines IH]; intros songs H; cbn [fold_left].
  - split; [exact H | simpl; lia].
  - destruct (table_step_cases songs line) as [->|(song & -> & Hs)].
    + destruct (IH songs H) as [G L]. split; [exact G | simpl; lia].
    + destruct (IH (songs ++ [song])) as [G L].
      * apply Forall_app. split; [exact H | now constructor].
      * split; [exact G|]. rewrite length_app in L. simpl in *. lia.
Qed.

End SongTable.

(** X12. Every song [parse_markdown_table] returns has an address that
    starts with [http], and an index, a name and an address that are
    stripped and hold no bar; and it returns at most one song per line. *)
Theorem parse_markdown_table_songs (lines : list str) :
  Forall
    (fun song =>
       startswith (lit "http") (ExtractLyrics.song_url song) = true
       /\ (strip (ExtractLyrics.song_index song) = ExtractLyrics.song_index song
           /\ strip (ExtractLyrics.song_name song) = ExtractLyrics.song_name song
           /\ strip (ExtractLyrics.song_url song) = ExtractLyrics.song_url song)
       /\ (~ In BAR (ExtractLyrics.song_index song)
           /\ ~ In BAR (ExtractLyrics.song_name song)
           /\ ~ In BAR (ExtractLyrics.song_url song)))
    (ExtractLyrics.parse_markdown_table lines)
  /\ (length (ExtractLyrics.parse_markdown_table lines) <= length lines)%nat.
Proof.
  destruct (table_loop lines (songs := [])) as [G L]; [constructor|].
  split; [exact G | exact L].
Qed.

(** ** Search terms *)

Section SearchTerms.

Lemma startswith_app (p s t : str) :
  startswith p s = true -> startswith p (s ++ t) = true.
Proof.
  revert s; induction p as [|x p IH]; intros s H; [reflexivity|].
  destruct s as [|y s]; [discriminate|].
  simpl in *. apply andb_true_iff in H. destruct H as [-> H].
  now rewrite IH.
Qed.

Lemma contains_str_app (sub s t : str) :
  contains_str sub s = true -> contains_str sub (s ++ t) = true.
Proof.
  induction s as [|c s IH]; intros H.
  - simpl in H. rewrite orb_false_r in H.
    destruct sub; [|discriminate]. now destruct t.
  - simpl in *. apply orb_true_iff in H. destruct H as [H|H].
    + change (startswith sub (c :: s ++ t))
        with (startswith sub ((c :: s) ++ t)).
      now rewrite startswith_app.
    + rewrite IH by assumption. apply orb_true_r.
Qed.

Lemma startswith_incl (p s : str) :
  startswith p s = true -> incl p s.
Proof.
  revert s; induction p as [|x p IH]; intros s H; [intros ? []|].
  destruct s as [|y s]; [discriminate|].
  simpl in H. apply andb_true_iff in H. destruct H as [E H].
  apply char_eqb_eq in E. subst y.
  intros c [->|Hc]; [now left | right; now apply (IH s)].
Qed.

Lemma contains_str_incl (sub s : str) :
  contains_str sub s = true -> incl sub s.
Proof.
  induction s as [|c s IH]; intros H; simpl in H.
  - rewrite orb_false_r in H. now apply startswith_incl.
  - apply orb_true_iff in H. destruct H as [H|H].
    + now apply startswith_incl.
    + intros x Hx. right. now apply IH.
Qed.

Lemma before_split (sep s : str) :
  exists rest,
    s = before sep s ++ rest
    /\ (rest = [] \/ startswith sep rest = true).
Proof.
  induction s as [|c s (rest & E & H)].
  - exists []. split; [reflexivity | now left].
  - cbn [before]. destruct (startswith sep (c :: s)) eqn:S.
    + exists (c :: s). split; [reflexivity | now right].
    + exists rest. split; [simpl; now rewrite <- E | exact H].
Qed.

Lemma before_without (sep s : str) :
  sep <> [] -> contains_str sep (before sep s) = false.
Proof.
  intros Hsep.
  assert (contains_str sep [] = false) as Hnil
      by (destruct sep; [congruence | reflexivity]).
  induction s as [|c s IH]; [exact Hnil|].
  cbn [before]. destruct (startswith sep (c :: s)) eqn:S; [exact Hnil|].
  cbn [contains_str]. rewrite IH, orb_false_r.
  destruct (startswith sep (c :: before sep s)) eqn:S'; [|reflexivity].
  destruct (before_split sep s) as (rest & E & _).
  apply (startswith_app _ _ rest) in S'.
  simpl in S'. rewrite <- E in S'. congruence.
Qed.

(** No occurrence of the separator starts inside the part before it. *)
Lemma before_first (sep s : str) :
  forall inside after,
    before sep s = inside ++ after -> after <> [] ->
    startswith sep (skipn (length inside) s) = false.
Proof.
  induction s as [|c s IH]; intros inside after E Hne.
  - destruct inside; [simpl in E; congruence | discriminate].
  - cbn [before] in E. destruct (startswith sep (c :: s)) eqn:S.
    + destruct inside; [simpl in E; congruence | discriminate].
    + destruct inside as [|x inside]; [exact S|].
      injection E as _ E. simpl. now apply (IH inside after).
Qed.

Lemma before_all (sep s : str) :
  contains_str sep s = false -> before sep s = s.
Proof.
  induction s as [|c s IH]; intros H; [reflexivity|].
  cbn [contains_str] in H. apply orb_false_iff in H. destruct H as [H1 H2].
  cbn [before]. now rewrite H1, IH.
Qed.

Lemma split_go_first (sep s : str) :
  forall cur,
    exists pieces, split_go sep 0 cur s = (cur ++ before sep s) :: pieces.
Proof.
  induction s as [|c s IH]; intros cur.
  - exists []. simpl. now rewrite app_nil_r.
  - cbn [split_go before]. destruct (startswith sep (c :: s)).
    + eexists. now rewrite app_nil_r.
    + destruct (IH (cur ++ [c])) as (pieces & ->).
      exists pieces. now rewrite <- app_assoc.
Qed.

Lemma cut_at_before (sep title : str) :
  sep <> [] -> Cli.cut_at sep title = Some (before sep title).
Proof.
  intros Hsep. unfold Cli.cut_at.
  destruct (contains_str sep title) eqn:C.
  - unfold split_str. destruct sep as [|x sep]; [congruence|].
    destruct (split_go_first (x :: sep) title []) as (pieces & ->).
    reflexivity.
  - now rewrite before_all.
Qed.

Lemma get_search_terms_eq (title : str) :
  Cli.get_search_terms title
  = Some
      match Cli.first_theme Cli.theme_map (cut_title title) with
      | Some english => english
      | None =>
          if Cli.is_hebrew (cut_title title) then lit "music abstract"
          else cut_title title
      end.
Proof.
  unfold Cli.get_search_terms, cut_title.
  rewrite !cut_at_before by discriminate.
  destruct (Cli.first_theme Cli.theme_map _); [reflexivity|].
  now destruct (Cli.is_hebrew _).
Qed.

Lemma first_theme_found (items : list (str * str)) (title english : str) :
  Cli.first_theme items title = Some english ->
  exists hebrew,
    In (hebrew, english) items /\ contains_str hebrew title = true.
Proof.
  induction items as [|[h e] items IH]; [discriminate|].
  simpl. destruct (contains_str h title) eqn:C.
  - intros [= <-]. exists h. split; [now left | exact C].
  - intros H. destruct (IH H) as (h' & Hin & Hc).
    exists h'. split; [now right | exact Hc].
Qed.

Lemma is_hebrew_incl (s t : str) :
  incl s t -> Cli.is_hebrew s = true -> Cli.is_hebrew t = true.
Proof.
  intros Hincl H. apply is_hebrew_iff in H. destruct H as (c & Hc & Hb).
  apply is_hebrew_iff. exists c. split; [now apply Hincl | exact Hb].
Qed.

Lemma theme_map_scripts :
  Forall (fun item => Cli.is_hebrew (fst item) = true
                      /\ Cli.is_hebrew (snd item) = false) Cli.theme_map.
Proof. repeat constructor. Qed.

Lemma cut_title_split (title : str) :
  exists rest,
    title = cut_title title ++ rest
    /\ (rest = []
        \/ startswith (lit " - ") rest = true
        \/ startswith (lit " / ") rest = true).
Proof.
  unfold cut_title.
  destruct (before_split (lit " - ") title) as (r1 & E1 & H1).
  destruct (before_split (lit " / ") (before (lit " - ") title))
    as (r2 & E2 & H2).
  exists (r2 ++ r1). split.
  - rewrite app_assoc, <- E2. exact E1.
  - destruct H2 as [->|H2].
    + simpl. destruct H1; [now left | right; now left].
    + right; right. now apply startswith_app.
Qed.

End SearchTerms.

(** X13. [get_search_terms] never fails and never returns Hebrew text:
    it returns the English terms of a theme, a title that holds no Hebrew
    character, or [music abstract]. *)
Theorem get_search_terms_not_hebrew (title : str) :
  exists terms,
    Cli.get_search_terms title = Some terms
    /\ Cli.is_hebrew terms = false.
Proof.
  rewrite get_search_terms_eq. eexists; split; [reflexivity|].
  destruct (Cli.first_theme Cli.theme_map (cut_title title)) as [english|] eqn:T.
  - destruct (first_theme_found _ _ T) as (hebrew & Hin & _).
    pose proof theme_map_scripts as Hs. rewrite Forall_forall in Hs.
    now destruct (Hs _ Hin).
  - now destruct (Cli.is_hebrew (cut_title title)) eqn:H.
Qed.

(** X14. For a title that holds no Hebrew character, [get_search_terms]
    returns the title cut at its first [ - ] and then, what is left, at
    its first [ / ]; so [a / - b] gives [a /], and not [a].  What it
    returns is a start of the title that holds neither of the two, and
    what follows it in the title is nothing or starts with one of the
    two. *)
Theorem get_search_terms_latin_title (title : str) :
  Cli.is_hebrew title = false ->
  exists terms rest,
    Cli.get_search_terms title = Some terms
    /\ terms = before (lit " / ") (before (lit " - ") title)
    /\ title = terms ++ rest
    /\ contains_str (lit " - ") terms = false
    /\ contains_str (lit " / ") terms = false
    /\ (rest = []
        \/ startswith (lit " - ") rest = true
        \/ startswith (lit " / ") rest = true).
Proof.
  intros Hlatin.
  destruct (cut_title_split title) as (rest & E & Hrest).
  assert (Cli.is_hebrew (cut_title title) = false) as Hcut.
  { destruct (Cli.is_hebrew (cut_title title)) eqn:H; [|reflexivity].
    rewrite <- Hlatin. symmetry.
    apply (is_hebrew_incl (s := cut_title title)); [|exact H].
    intros c Hc. rewrite E. apply in_or_app. now left. }
  exists (cut_title title), rest.
  rewrite get_search_terms_eq, Hcut.
  destruct (Cli.first_theme Cli.theme_map (cut_title title)) as [english|] eqn:T.
  - destruct (first_theme_found _ _ T) as (hebrew & Hin & Hc).
    pose proof theme_map_scripts as Hs. rewrite Forall_forall in Hs.
    destruct (Hs _ Hin) as [Hh _]. simpl in Hh.
    apply contains_str_incl in Hc.
    rewrite (is_hebrew_incl Hc Hh) in Hcut. discriminate.
  - repeat split; try assumption.
    + unfold cut_title.
      destruct (before_split (lit " / ") (before (lit " - ") title))
        as (r2 & E2 & _).
      destruct (contains_str (lit " - ")
                  (before (lit " / ") (before (lit " - ") title))) eqn:C;
        [|reflexivity].
      apply (contains_str_app _ _ r2) in C. rewrite <- E2 in C.
      rewrite before_without in C by discriminate. discriminate.
    + unfold cut_title. apply before_without. discriminate.
Qed.

Lemma get_search_terms_latin_title_witness :
  exists terms rest,
    Cli.get_search_terms (lit "a / - b") = Some terms
    /\ terms = lit "a /"
    /\ lit "a / - b" = terms ++ rest
    /\ contains_str (lit " - ") terms = false
    /\ contains_str (lit " / ") terms = false
    /\ (rest = []
        \/ startswith (lit " - ") rest = true
        \/ startswith (lit " / ") rest = true).
Proof.
  apply (get_search_terms_latin_title (lit "a / - b")).
  reflexivity.
Defined.

(** ** Cleaning lyrics *)

Section CleanLyrics.

Lemma flush_newlines_space (pending : nat) :
  all_space (Main.flush_newlines pending).
Proof.
  unfold Main.flush_newlines, all_space.
  destruct (3 <=? pending)%nat; [repeat constructor|].
  induction pending; simpl; now constructor.
Qed.

Lemma collapse_newlines_space (text : str) :
  forall pending,
    all_space text -> all_space (Main.collapse_newlines pending text).
Proof.
  unfold all_space.
  induction text as [|c text IH]; intros pending H; simpl.
  - apply flush_newlines_space.
  - inversion H as [|? ? Hc Ht]; subst.
    destruct (char_eqb c NEWLINE); [now apply IH|].
    apply Forall_app. split; [apply flush_newlines_space|].
    constructor; [exact Hc | now apply IH].
Qed.

Lemma split_space (sep : char) (s : str) :
  all_space s -> Forall all_space (split sep s).
Proof.
  unfold all_space.
  induction s as [|c s IH]; intros H; simpl.
  - repeat constructor.
  - inversion H as [|? ? Hc Hs]; subst. specialize (IH Hs).
    destruct (char_eqb c sep); [constructor; [constructor | exact IH]|].
    destruct (split sep s) as [|w ws]; [repeat constructor; exact Hc|].
    inversion IH; subst. constructor; [now constructor | assumption].
Qed.

Lemma pop_leading_empty_nil (lines : list str) :
  Forall (fun line => line = []) lines -> Main.pop_leading_empty lines = [].
Proof.
  induction 1 as [|line lines -> _ IH]; [reflexivity | exact IH].
Qed.

Lemma pop_leading_empty_spec (lines : list str) :
  exists pre,
    lines = pre ++ Main.pop_leading_empty lines
    /\ (forall x r, Main.pop_leading_empty lines = x :: r -> x <> []).
Proof.
  induction lines as [|line lines (pre & E & H)]; simpl.
  - exists []. split; [reflexivity | discriminate].
  - destruct line as [|c line].
    + exists ([] :: pre). split; [simpl; now rewrite <- E | exact H].
    + exists []. split; [reflexivity|]. now intros x r [= <- _].
Qed.

Lemma pop_trailing_empty_spec (lines : list str) :
  exists post,
    lines = Main.pop_trailing_empty lines ++ post
    /\ (Main.pop_trailing_empty lines <> [] ->
        last (Main.pop_trailing_empty lines) [] <> []).
Proof.
  unfold Main.pop_trailing_empty.
  destruct (pop_leading_empty_spec (rev lines)) as (pre & E & H).
  exists (rev pre). split.
  - rewrite <- rev_app_distr, <- E. now rewrite rev_involutive.
  - intros Hne.
    destruct (Main.pop_leading_empty (rev lines)) as [|x r] eqn:P;
      [now elim Hne|].
    simpl. rewrite last_last. now apply (H x r).
Qed.

Lemma join_first (sep : str) (parts : list str) :
  exists back, join sep parts = hd [] parts ++ back.
Proof.
  destruct parts as [|p [|q rest]].
  - now exists [].
  - exists []. simpl. now rewrite app_nil_r.
  - eexists. reflexivity.
Qed.

Lemma join_last (sep : str) (parts : list str) :
  exists front, join sep parts = front ++ last parts [].
Proof.
  induction parts as [|p rest (front & E)].
  - now exists [].
  - destruct rest as [|q rest].
    + now exists [].
    + exists (p ++ sep ++ front).
      change (join sep (p :: q :: rest)) with (p ++ sep ++ join sep (q :: rest)).
      change (last (p :: q :: rest) []) with (last (q :: rest) []).
      rewrite E. now rewrite !app_assoc.
Qed.

(** A string that starts and ends with a character that is no space is
    its own [strip()]. *)
Lemma strip_between (first back front final : str) (s : str) :
  first <> [] -> lstrip first = first ->
  final <> [] -> lstrip (rev final) = rev final ->
  s = first ++ back -> s = front ++ final ->
  strip s = s.
Proof.
  intros Hf1 Hf2 Hl1 Hl2 E1 E2. apply strip_fixed.
  - rewrite E1. rewrite lstrip_app; [now rewrite Hf2|].
    now rewrite Hf2.
  - rewrite E2, rev_app_distr. rewrite lstrip_app; [now rewrite Hl2|].
    rewrite Hl2. intros E. apply Hl1.
    apply (f_equal (@rev char)) in E. now rewrite rev_involutive in E.
Qed.

Lemma clean_lyrics_eq (text : str) :
  text <> [] ->
  Main.clean_lyrics text
  = join [NEWLINE]
      (Main.pop_trailing_empty
         (Main.pop_leading_empty
            (map strip (split NEWLINE (Main.collapse_newlines 0 text))))).
Proof.
  destruct text; [congruence | reflexivity].
Qed.

Lemma clean_lyrics_stripped (text : str) :
  strip (Main.clean_lyrics text) = Main.clean_lyrics text.
Proof.
  destruct text as [|c0 text]; [reflexivity|].
  rewrite clean_lyrics_eq by discriminate.
  set (lines := map strip (split NEWLINE _)).
  assert (Forall (fun line => strip line = line) lines) as Hs.
  { apply Forall_forall. intros line Hin.
    apply in_map_iff in Hin. destruct Hin as (piece & <- & _).
    apply strip_idem. }
  destruct (pop_leading_empty_spec lines) as (pre & E1 & Hhd).
  destruct (pop_trailing_empty_spec (Main.pop_leading_empty lines))
    as (post & E2 & Hlast).
  set (kept_lines := Main.pop_trailing_empty (Main.pop_leading_empty lines)) in *.
  assert (Forall (fun line => strip line = line) kept_lines) as Hk.
  { rewrite E1, E2 in Hs.
    apply Forall_app in Hs. destruct Hs as [_ Hs].
    apply Forall_app in Hs. now destruct Hs. }
  destruct kept_lines as [|first rest] eqn:K; [reflexivity|].
  rewrite <- K in *.
  assert (kept_lines <> []) as Hne by (rewrite K; discriminate).
  destruct (join_first [NEWLINE] kept_lines) as (back & Eb).
  destruct (join_last [NEWLINE] kept_lines) as (front & Ef).
  assert (In (hd [] kept_lines) kept_lines) as Hin1
      by (rewrite K; now left).
  assert (In (last kept_lines []) kept_lines) as Hin2.
  { destruct (exists_last Hne) as (init & final & ->).
    rewrite last_last. apply in_or_app. right. now left. }
  rewrite Forall_forall in Hk.
  apply (@strip_between (hd [] kept_lines) back front (last kept_lines []));
    try assumption.
  - rewrite K. simpl. apply (Hhd first (rest ++ post)).
    rewrite E2, K. reflexivity.
  - rewrite <- (Hk _ Hin1). apply strip_ends.
  - now apply Hlast.
  - rewrite <- (Hk _ Hin2). apply strip_ends.
Qed.

Lemma clean_lyrics_blank (text : str) :
  strip text = [] -> Main.clean_lyrics text = [].
Proof.
  intros H. destruct text as [|c0 text]; [reflexivity|].
  rewrite clean_lyrics_eq by discriminate.
  apply strip_nil_iff in H.
  rewrite pop_leading_empty_nil; [reflexivity|].
  apply Forall_forall. intros line Hin.
  apply in_map_iff in Hin. destruct Hin as (piece & <- & Hp).
  apply strip_nil_iff.
  pose proof (split_space NEWLINE (collapse_newlines_space 0 H)) as Hsp.
  rewrite Forall_forall in Hsp. now apply Hsp.
Qed.

End CleanLyrics.

(** X15. What [clean_lyrics] returns has no white space at its start nor
    at its end, and it is empty for a text of white space only. *)
Theorem clean_lyrics_trimmed (text : str) :
  strip (Main.clean_lyrics text) = Main.clean_lyrics text
  /\ (strip text = [] -> Main.clean_lyrics text = []).
Proof.
  split; [apply clean_lyrics_stripped | apply clean_lyrics_blank].
Qed.

Lemma clean_lyrics_trimmed_witness :
  strip [NEWLINE; SPACE; NEWLINE; NEWLINE] = []
  /\ Main.clean_lyrics [NEWLINE; SPACE; NEWLINE; NEWLINE] = [].
Proof.
  split; [reflexivity|].
  apply (proj2 (clean_lyrics_trimmed [NEWLINE; SPACE; NEWLINE; NEWLINE])).
  reflexivity.
Defined.
